(** * VQModelPaella: the Paella VQ-VAE of [diffusers/models/vq_paella.py]

    A shallow embedding of the module's constructor ([__init__]) and of its
    three methods ([encode], [decode], [forward]).

    - Python [int]s are [Z]; [//] is [Z.div] (both round towards minus
      infinity for a positive divisor) and [**] is [Z.pow].
    - Python lists are [list]; indexing raises [IndexError] out of range,
      which is [None] here.
    - The [torch.nn] layers are descriptors (the arguments the constructor
      passes); constructing one may raise, and what a layer computes is
      supplied by a [Backend], so that the
      same [encode]/[decode]/[forward] are run on shapes, or on any other
      tensor model.
    - A call of a method is a computation on the state of the instance
      (training flag, parameters, BatchNorm buffers) that may raise. *)

From Stdlib Require Import ZArith List Bool Lia QArith Qcanon.
From Stdlib Require String.
Import ListNotations.
Open Scope Z_scope.

Set Implicit Arguments.

(** ** Python helpers *)

Module Py.

(** [range(n)]: empty when [n <= 0]. *)
Definition range (n : Z) : list Z := map Z.of_nat (seq 0 (Z.to_nat n)).

(** [l[i]], with Python's negative indices; [None] is [IndexError]. *)
Definition index {A : Type} (l : list A) (i : Z) : option A :=
  let n := Z.of_nat (length l) in
  if i <? 0
  then (if i + n <? 0 then None else nth_error l (Z.to_nat (i + n)))
  else nth_error l (Z.to_nat i).

(** A [for x in xs:] loop whose body updates [acc] and may raise. *)
Fixpoint for_each {A S : Type} (body : S -> A -> option S)
         (xs : list A) (acc : S) : option S :=
  match xs with
  | [] => Some acc
  | x :: xs' =>
      match body acc x with
      | Some acc' => for_each body xs' acc'
      | None => None
      end
  end.

End Py.

Notation "x <- e ;; k" :=
  (match e with Some x => k | None => None end)
    (at level 61, e at next level, right associativity, only parsing).

(** ** Layers and configuration *)

(** Layers without buffers.  The arguments are those of the [torch.nn]
    constructors ([stride] and [padding] default to 1 and 0, [bias] to
    [True]). *)
Inductive prim : Type :=
| PixelUnshuffle (downscale_factor : Z)
| PixelShuffle (upscale_factor : Z)
| Conv2d (c_in c_out kernel_size stride padding : Z) (bias : bool)
| ConvTranspose2d (c_in c_out kernel_size stride padding : Z)
| MixingResidualBlock (inp_channels embed_dim : Z).

#[warnings="-register-all"] Inductive layer : Type :=
| Prim (p : prim)
| BatchNorm2d (num_features : Z)
| Sequential (children : list layer).

Coercion Prim : prim >-> layer.

(** [VectorQuantizer(n_e, vq_embed_dim=..., legacy=..., beta=...)]. *)
Record VectorQuantizer : Type := {
  n_e : Z;
  vq_embed_dim : Z;
  legacy : bool;
  beta : Q
}.

(** The registered configuration: the arguments of [__init__].
    [float] is the type of [scale_factor]. *)
Record Config (float : Type) : Type := {
  in_channels : Z;
  out_channels : Z;
  up_down_scale_factor : Z;
  levels : Z;
  bottleneck_blocks : Z;
  c_hidden : Z;
  c_latent : Z;
  codebook_size : Z;
  scale_factor : float
}.

(** The defaults of [__init__]; [sf] stands for the literal [0.3764]. *)
Definition default_config {float : Type} (sf : float) : Config float :=
  {| in_channels := 3; out_channels := 3; up_down_scale_factor := 2;
     levels := 2; bottleneck_blocks := 12; c_hidden := 384; c_latent := 4;
     codebook_size := 8192; scale_factor := sf |}.

Record VQModelPaella (float : Type) : Type := {
  config : Config float;
  in_block : layer;
  down_blocks : layer;
  vquantizer : VectorQuantizer;
  up_blocks : layer;
  out_block : layer
}.

(** ** Constructing layers

    A [torch.nn] layer allocates its parameters when it is constructed and
    raises on a negative size; a size of zero is allowed.  [None] is the
    exception. *)

Definition new_Conv2d (c_in c_out kernel_size stride padding : Z)
           (bias : bool) : option layer :=
  if (0 <=? c_in) && (0 <=? c_out)
  then Some (Prim (Conv2d c_in c_out kernel_size stride padding bias))
  else None.

Definition new_ConvTranspose2d (c_in c_out kernel_size stride padding : Z)
  : option layer :=
  if (0 <=? c_in) && (0 <=? c_out)
  then Some (Prim (ConvTranspose2d c_in c_out kernel_size stride padding))
  else None.

Definition new_BatchNorm2d (num_features : Z) : option layer :=
  if 0 <=? num_features then Some (BatchNorm2d num_features) else None.

(** Modelled from the spec: [MixingResidualBlock] (of
    [diffusers.models.resnet]) is not among the sources and the spec does
    not say when its constructor raises.  The block mixes each channel
    spatially by a convolution with one group per channel, and [torch.nn]
    refuses a convolution without groups: the constructor is taken to need
    at least one channel (and an inner width that is not negative). *)
Definition new_MixingResidualBlock (inp_channels embed_dim : Z)
  : option layer :=
  if (1 <=? inp_channels) && (0 <=? embed_dim)
  then Some (Prim (MixingResidualBlock inp_channels embed_dim))
  else None.

(** Modelled from the spec: [VectorQuantizer] (of [diffusers.models.vae])
    is not among the sources and the spec does not say when its constructor
    raises.  It holds a codebook of [n_e] vectors of [vq_embed_dim] entries
    that it initialises within [1 / n_e] of zero: the constructor is taken
    to need at least one codebook vector (and a dimension that is not
    negative). *)
Definition new_VectorQuantizer (size dim : Z) (is_legacy : bool)
           (commitment : Q) : option VectorQuantizer :=
  if (1 <=? size) && (0 <=? dim)
  then Some {| n_e := size; vq_embed_dim := dim;
               legacy := is_legacy; beta := commitment |}
  else None.

(** ** The constructor *)

Section Init.

Variable float : Type.
Variable cfg : Config float.

(** [c_levels = [c_hidden // (2**i) for i in reversed(range(levels))]] *)
Definition c_levels : list Z :=
  map (fun i => c_hidden cfg / 2 ^ i) (rev (Py.range (levels cfg))).

(** Body of the loop that fills [down_blocks]. *)
Definition down_body (acc : list layer) (i : Z) : option (list layer) :=
  acc1 <- (if 0 <? i
           then (a <- Py.index c_levels (i - 1) ;;
                 b <- Py.index c_levels i ;;
                 conv <- new_Conv2d a b 4 2 1 true ;;
                 Some (acc ++ [conv]))
           else Some acc) ;;
  c <- Py.index c_levels i ;;
  block <- new_MixingResidualBlock c (c * 4) ;;
  Some (acc1 ++ [block]).

(** Body of the inner loop over [j] of the decoder. *)
Definition up_inner (i : Z) (acc : list layer) (j : Z) : option (list layer) :=
  c <- Py.index c_levels (levels cfg - 1 - i) ;;
  block <- new_MixingResidualBlock c (c * 4) ;;
  Some (acc ++ [block]).

(** Body of the outer loop that fills [up_blocks]. *)
Definition up_body (acc : list layer) (i : Z) : option (list layer) :=
  acc1 <- Py.for_each (up_inner i)
            (Py.range (if i =? 0 then bottleneck_blocks cfg else 1)) acc ;;
  if i <? levels cfg - 1
  then (a <- Py.index c_levels (levels cfg - 1 - i) ;;
        b <- Py.index c_levels (levels cfg - 2 - i) ;;
        conv <- new_ConvTranspose2d a b 4 2 1 ;;
        Some (acc1 ++ [conv]))
  else Some acc1.

Definition init : option (VQModelPaella float) :=
  let s := up_down_scale_factor cfg in
  c_first <- Py.index c_levels 0 ;;
  conv_in <- new_Conv2d (in_channels cfg * s ^ 2) c_first 1 1 0 true ;;
  let in_block_ := Sequential [Prim (PixelUnshuffle s); conv_in] in
  down <- Py.for_each down_body (Py.range (levels cfg)) [] ;;
  c_last <- Py.index c_levels (-1) ;;
  conv_latent <- new_Conv2d c_last (c_latent cfg) 1 1 0 false ;;
  norm <- new_BatchNorm2d (c_latent cfg) ;;
  let down := down ++ [Sequential [conv_latent; norm]] in
  vq <- new_VectorQuantizer (codebook_size cfg) (c_latent cfg)
          false (25 # 100) ;;
  conv_up <- new_Conv2d (c_latent cfg) c_last 1 1 0 true ;;
  let up0 := [Sequential [conv_up]] in
  up <- Py.for_each up_body (Py.range (levels cfg)) up0 ;;
  c_first' <- Py.index c_levels 0 ;;
  conv_out <- new_Conv2d c_first' (out_channels cfg * s ^ 2) 1 1 0 true ;;
  let out_block_ := Sequential [conv_out; Prim (PixelShuffle s)] in
  Some {| config := cfg;
          in_block := in_block_;
          down_blocks := Sequential down;
          vquantizer := vq;
          up_blocks := Sequential up;
          out_block := out_block_ |}.

End Init.


(** ** Tensors, layers and the state of an instance *)

(** The attributes of the module that are called as sub-modules. *)
Inductive submodule : Type :=
| InBlock | DownBlocks | VQuantizer | UpBlocks | OutBlock.

(** The key of a layer in the state dict: the attribute and the positions
    inside nested [Sequential]s, as in ["down_blocks.3.1"]. *)
Definition name : Type := (submodule * list nat)%type.

Definition submodule_eqb (a b : submodule) : bool :=
  match a, b with
  | InBlock, InBlock | DownBlocks, DownBlocks | VQuantizer, VQuantizer
  | UpBlocks, UpBlocks | OutBlock, OutBlock => true
  | _, _ => false
  end.

Definition name_eqb (a b : name) : bool :=
  submodule_eqb (fst a) (fst b)
  && (if list_eq_dec Nat.eq_dec (snd a) (snd b) then true else false).

Definition child (n : name) (i : nat) : name := (fst n, snd n ++ [i]).

(** Tensors with the two scalings the methods apply themselves. *)
Class Scaling : Type := {
  tensor : Type;
  scalar : Type;
  mul : tensor -> scalar -> tensor;   (* [h * scale_factor] *)
  div : tensor -> scalar -> tensor    (* [h / scale_factor] *)
}.

(** What the layers compute.  Parameters are read from a state dict by key
    and no layer writes them; [BatchNorm2d] is the one layer with buffers.
    In training mode it normalises with the statistics of the batch and
    folds them into its running statistics; in evaluation mode it normalises
    with the running statistics and leaves them alone.

    [MixingResidualBlock] and [VectorQuantizer] are classes of the library
    that are not among the sources: what they compute is a parameter here,
    a function of the input and of the parameters that may raise.  The
    quantizer returns the quantized tensor, a loss and further
    information. *)
Class Backend (S : Scaling) : Type := {
  state_dict : Type;
  running_stats : Type;
  vq_loss : Type;
  vq_info : Type;
  prim_forward : state_dict -> name -> prim -> tensor -> option tensor;
  bn_check_input_dim : tensor -> bool;
  batch_norm_train : state_dict -> name -> Z -> tensor -> option tensor;
  batch_norm_eval :
    state_dict -> name -> Z -> running_stats -> tensor -> option tensor;
  update_running : running_stats -> tensor -> running_stats;
  vq_forward :
    state_dict -> VectorQuantizer -> tensor ->
    option (tensor * vq_loss * vq_info)
}.

Section Model.

Context {S : Scaling} {B : Backend S}.

(** The buffers of a [BatchNorm2d]. *)
Record bn_buffers : Type := {
  running : running_stats;        (* [running_mean], [running_var] *)
  num_batches_tracked : Z
}.

(** What an instance holds besides its structure. *)
Record instance_state : Type := {
  training : bool;
  parameters : state_dict;
  buffers : name -> bn_buffers
}.

Definition set_buffers (n : name) (b : bn_buffers) (s : instance_state)
  : instance_state :=
  {| training := training s;
     parameters := parameters s;
     buffers := fun n' => if name_eqb n n' then b else buffers s n' |}.

(** [BatchNorm2d.forward]: the input is checked to be 4D; in training mode
    [num_batches_tracked] is incremented, then the batch is normalised and
    the running statistics are updated; this second step may raise. *)
Definition run_batch_norm (n : name) (c : Z) (x : tensor) (s : instance_state)
  : option tensor * instance_state :=
  if bn_check_input_dim x then
    if training s then
      let b := buffers s n in
      let s1 :=
        set_buffers n {| running := running b;
                         num_batches_tracked := num_batches_tracked b + 1 |} s in
      match batch_norm_train (parameters s) n c x with
      | Some y =>
          (Some y,
           set_buffers n {| running := update_running (running b) x;
                            num_batches_tracked := num_batches_tracked b + 1 |} s)
      | None => (None, s1)
      end
    else (batch_norm_eval (parameters s) n c (running (buffers s n)) x, s)
  else (None, s).

(** Calling a layer.  [Sequential] calls its children in order and stops
    at the first one that raises. *)
Fixpoint run_layer (n : name) (l : layer) (x : tensor) (s : instance_state)
  {struct l} : option tensor * instance_state :=
  match l with
  | Prim p => (prim_forward (parameters s) n p x, s)
  | BatchNorm2d c => run_batch_norm n c x s
  | Sequential ls =>
      (fix run_children (i : nat) (ls : list layer) (x : tensor)
           (s : instance_state) {struct ls} : option tensor * instance_state :=
         match ls with
         | [] => (Some x, s)
         | l' :: ls' =>
             match run_layer (child n i) l' x s with
             | (Some y, s') => run_children (Datatypes.S i) ls' y s'
             | (None, s') => (None, s')
             end
         end) 0%nat ls x s
  end.

(** The same loop, named, for a list of children starting at position [i]. *)
Fixpoint run_children (n : name) (i : nat) (ls : list layer) (x : tensor)
         (s : instance_state) : option tensor * instance_state :=
  match ls with
  | [] => (Some x, s)
  | l' :: ls' =>
      match run_layer (child n i) l' x s with
      | (Some y, s') => run_children n (Datatypes.S i) ls' y s'
      | (None, s') => (None, s')
      end
  end.

(** *** Method calls *)

(** A call runs against the instance and is recorded: [calls] lists the
    sub-modules invoked so far, in order. *)
Record world : Type := {
  inst : instance_state;
  calls : list submodule
}.

Definition M (A : Type) : Type := world -> option A * world.

Definition ret {A : Type} (a : A) : M A := fun w => (Some a, w).

Definition bind {A C : Type} (m : M A) (k : A -> M C) : M C :=
  fun w =>
    match m w with
    | (Some a, w') => k a w'
    | (None, w') => (None, w')
    end.

(** An exception of Python itself ([AttributeError] and the like). *)
Definition lift {A : Type} (o : option A) : M A := fun w => (o, w).

(** [self.<attr>(x)] *)
Definition call {A : Type} (a : submodule)
           (f : instance_state -> option A * instance_state) : M A :=
  fun w =>
    let (r, s') := f (inst w) in
    (r, {| inst := s'; calls := calls w ++ [a] |}).

Notation "'let*' x ':=' e 'in' k" :=
  (bind e (fun x => k))
    (at level 10, x name, e at level 100, k at level 200).

(** What the methods return: a 1-tuple, or one of the two output classes. *)
Inductive output : Type :=
| Tuple1 (t : tensor)
| VQEncoderOutput (latents : tensor)
| DecoderOutput (sample : tensor).

(** [o.latents] and [o.sample]. *)
Definition get_latents (o : output) : option tensor :=
  match o with VQEncoderOutput h => Some h | _ => None end.

Definition get_sample (o : output) : option tensor :=
  match o with DecoderOutput d => Some d | _ => None end.

(** The tensor an output carries. *)
Definition tensor_of (o : output) : tensor :=
  match o with Tuple1 t | VQEncoderOutput t | DecoderOutput t => t end.

Variable self : VQModelPaella scalar.

(** The two scaling steps. *)
Definition encode_scale (h : tensor) : tensor :=
  div h (scale_factor (config self)).

Definition decode_scale (h : tensor) : tensor :=
  mul h (scale_factor (config self)).

Definition encode (x : tensor) (return_dict : bool) : M output :=
  let* h := call InBlock (run_layer (InBlock, []) (in_block self) x) in
  let* h := call DownBlocks (run_layer (DownBlocks, []) (down_blocks self) h) in
  let h := encode_scale h in
  if negb return_dict then ret (Tuple1 h) else ret (VQEncoderOutput h).

Definition decode (h : tensor) (force_not_quantize return_dict : bool)
  : M output :=
  let* quant :=
    (if negb force_not_quantize
     then
       let* r := call VQuantizer
                   (fun s => (vq_forward (parameters s) (vquantizer self)
                                (decode_scale h), s)) in
       let '(quant, _, _) := r in ret quant
     else ret (decode_scale h)) in
  let* x := call UpBlocks (run_layer (UpBlocks, []) (up_blocks self) quant) in
  let* dec := call OutBlock (run_layer (OutBlock, []) (out_block self) x) in
  if negb return_dict then ret (Tuple1 dec) else ret (DecoderOutput dec).

Definition forward (sample : tensor) (return_dict : bool) : M output :=
  let x := sample in
  let* o := encode x true in
  let* h := lift (get_latents o) in
  let* o' := decode h true true in
  let* dec := lift (get_sample o') in
  if negb return_dict then ret (Tuple1 dec) else ret (DecoderOutput dec).

End Model.

(** ** Shapes *)

(** The shape of a 4D tensor [(N, C, H, W)]. *)
Record shape : Type := {
  batch : Z;
  channels : Z;
  height : Z;
  width : Z
}.

Module Shape.

(** Output size of a convolution along one dimension (dilation 1). *)
Definition conv_out (i k s p : Z) : Z := (i + 2 * p - k) / s + 1.

(** Output size of a transposed convolution along one dimension
    (dilation 1, no output padding). *)
Definition conv_transpose_out (i k s p : Z) : Z := (i - 1) * s - 2 * p + k.

(** Modelled from the spec: [MixingResidualBlock] (of
    [diffusers.models.resnet]) is not among the sources; the spec describes
    it as a residual block with a skip connection at a given width, so it
    returns the shape it is given and needs its input to have that width. *)
Definition mixing_residual_block_shape (c : Z) (x : shape) : option shape :=
  if channels x =? c then Some x else None.

(** The shape rules of the [torch.nn] layers, as their documentation
    gives them; [None] where the layer raises. *)
Definition prim_shape (p : prim) (x : shape) : option shape :=
  match p with
  | PixelUnshuffle r =>
      if (0 <? r) && (height x mod r =? 0) && (width x mod r =? 0)
      then Some {| batch := batch x; channels := channels x * (r * r);
                   height := height x / r; width := width x / r |}
      else None
  | PixelShuffle r =>
      if (0 <? r) && (channels x mod (r * r) =? 0)
      then Some {| batch := batch x; channels := channels x / (r * r);
                   height := height x * r; width := width x * r |}
      else None
  | Conv2d ci co k s p _ =>
      if (channels x =? ci) && (0 <? s)
         && (k <=? height x + 2 * p) && (k <=? width x + 2 * p)
      then Some {| batch := batch x; channels := co;
                   height := conv_out (height x) k s p;
                   width := conv_out (width x) k s p |}
      else None
  | ConvTranspose2d ci co k s p =>
      if channels x =? ci
      then Some {| batch := batch x; channels := co;
                   height := conv_transpose_out (height x) k s p;
                   width := conv_transpose_out (width x) k s p |}
      else None
  | MixingResidualBlock c _ => mixing_residual_block_shape c x
  end.

(** [BatchNorm2d] keeps the shape of an input with [c] channels; in
    training mode it refuses a batch with a single value per channel. *)
Definition bn_train_shape (c : Z) (x : shape) : option shape :=
  if (channels x =? c) && negb (batch x * height x * width x =? 1)
  then Some x else None.

Definition bn_eval_shape (c : Z) (x : shape) : option shape :=
  if channels x =? c then Some x else None.

Instance scaling : Scaling :=
  {| tensor := shape; scalar := Q;
     mul := fun x _ => x; div := fun x _ => x |}.

(** Modelled from the spec: [VectorQuantizer] (of [diffusers.models.vae])
    is not among the sources; by the spec it returns a quantized tensor of
    identical shape, a loss and auxiliary information. *)
Definition vector_quantizer_shape (q : VectorQuantizer) (x : shape)
  : option (shape * unit * unit) :=
  Some (x, tt, tt).

(** Shapes as tensors: parameters and running statistics carry nothing. *)
Instance backend : Backend scaling :=
  {| state_dict := unit;
     running_stats := unit;
     vq_loss := unit;
     vq_info := unit;
     prim_forward := fun _ _ p x => prim_shape p x;
     bn_check_input_dim := fun _ => true;
     batch_norm_train := fun _ _ c x => bn_train_shape c x;
     batch_norm_eval := fun _ _ c _ x => bn_eval_shape c x;
     update_running := fun r _ => r;
     vq_forward := fun _ q x => vector_quantizer_shape q x |}.

(** An instance that has seen no batch, in the given mode: training right
    after construction, evaluation after [eval()]. *)
Definition fresh (train : bool) : @world scaling backend :=
  {| inst := {| training := train;
                parameters := tt;
                buffers := fun _ => {| running := tt;
                                       num_batches_tracked := 0 |} |};
     calls := [] |}.

End Shape.

(** ** Rational tensors *)

Module Rational.

(** A tensor of rationals: its shape and its entries, row-major. *)
Record qtensor : Type := {
  qshape : shape;
  qdata : list Qc
}.

Definition qmul (t : qtensor) (s : Qc) : qtensor :=
  {| qshape := qshape t; qdata := map (fun v => (v * s)%Qc) (qdata t) |}.

Definition qdiv (t : qtensor) (s : Qc) : qtensor :=
  {| qshape := qshape t; qdata := map (fun v => (v / s)%Qc) (qdata t) |}.

Instance scaling : Scaling :=
  {| tensor := qtensor; scalar := Qc; mul := qmul; div := qdiv |}.

End Rational.

(** ** Configurations and inputs *)

(** Sizes a constructor call can be given: positive channel counts, scale
    and level count, and a hidden width that leaves every level at least
    one channel. *)
Record valid_config {float : Type} (cfg : Config float) : Prop := {
  valid_in : 0 < in_channels cfg;
  valid_out : 0 < out_channels cfg;
  valid_scale : 0 < up_down_scale_factor cfg;
  valid_levels : 0 < levels cfg;
  valid_latent : 0 < c_latent cfg;
  valid_codebook : 0 < codebook_size cfg;
  valid_hidden : 2 ^ (levels cfg - 1) <= c_hidden cfg
}.

(** The factor between image and latent resolution: one pixel unshuffle by
    the scale factor and [levels - 1] convolutions of stride 2. *)
Definition total_stride {float : Type} (cfg : Config float) : Z :=
  up_down_scale_factor cfg * 2 ^ (levels cfg - 1).

(** The shape [(n, c, h, w)]. *)
Definition sh (n c h w : Z) : shape :=
  {| batch := n; channels := c; height := h; width := w |}.


(** ** The layers the loops of the constructor produce *)

Section Unrolled.

Variable float : Type.
Variable cfg : Config float.

(** The width of level [i] in closed form. *)
Definition c_at (i : Z) : Z := c_hidden cfg / 2 ^ (levels cfg - 1 - i).

(** What iteration [i] of the encoder loop appends. *)
Definition down_layers (i : Z) : list layer :=
  (if 0 <? i then [Prim (Conv2d (c_at (i - 1)) (c_at i) 4 2 1 true)] else [])
  ++ [Prim (MixingResidualBlock (c_at i) (c_at i * 4))].

(** What iteration [i] of the decoder loop appends. *)
Definition up_layers (i : Z) : list layer :=
  let c := c_at (levels cfg - 1 - i) in
  repeat (Prim (MixingResidualBlock c (c * 4)))
         (Z.to_nat (if i =? 0 then bottleneck_blocks cfg else 1))
  ++ (if i <? levels cfg - 1
      then [Prim (ConvTranspose2d c (c_at (levels cfg - 2 - i)) 4 2 1)]
      else []).

(** The instance [init] builds when it does not raise. *)
Definition built : VQModelPaella float :=
  let s := up_down_scale_factor cfg in
  {| config := cfg;
     in_block :=
       Sequential [Prim (PixelUnshuffle s);
                   Prim (Conv2d (in_channels cfg * s ^ 2) (c_at 0) 1 1 0 true)];
     down_blocks :=
       Sequential
         (flat_map down_layers (Py.range (levels cfg))
          ++ [Sequential [Prim (Conv2d (c_hidden cfg) (c_latent cfg) 1 1 0 false);
                          BatchNorm2d (c_latent cfg)]]);
     vquantizer :=
       {| n_e := codebook_size cfg; vq_embed_dim := c_latent cfg;
          legacy := false; beta := 25 # 100 |};
     up_blocks :=
       Sequential
         ([Sequential [Prim (Conv2d (c_latent cfg) (c_hidden cfg) 1 1 0 true)]]
          ++ flat_map up_layers (Py.range (levels cfg)));
     out_block :=
       Sequential [Prim (Conv2d (c_at 0) (out_channels cfg * s ^ 2) 1 1 0 true);
                   Prim (PixelShuffle s)] |}.

(** The configurations on which no layer constructor raises: a level to
    start from, at least one channel at every level, a codebook that is not
    empty, and no negative channel count. *)
Definition constructible : bool :=
  (0 <? levels cfg)
  && (2 ^ (levels cfg - 1) <=? c_hidden cfg)
  && (0 <=? in_channels cfg * up_down_scale_factor cfg ^ 2)
  && (0 <=? out_channels cfg * up_down_scale_factor cfg ^ 2)
  && (0 <=? c_latent cfg)
  && (1 <=? codebook_size cfg).

(** The key of the [BatchNorm2d] that closes [down_blocks]: the cascade
    holds one block per level and one convolution between levels, then the
    [Sequential] of the latent projection and the normalisation. *)
Definition batch_norm_name : name :=
  (DownBlocks, [Z.to_nat (2 * levels cfg - 1); 1%nat]).

End Unrolled.

(** ** Layers as functions on shapes *)

Definition obind {A C : Type} (o : option A) (k : A -> option C) : option C :=
  match o with Some a => k a | None => None end.

(** The shape a layer returns in the given mode. *)
Fixpoint layer_shape (train : bool) (l : layer) (x : shape) {struct l}
  : option shape :=
  match l with
  | Prim p => Shape.prim_shape p x
  | BatchNorm2d c =>
      if train then Shape.bn_train_shape c x else Shape.bn_eval_shape c x
  | Sequential ls =>
      (fix go (ls : list layer) (x : shape) {struct ls} : option shape :=
         match ls with
         | [] => Some x
         | l' :: ls' => obind (layer_shape train l' x) (go ls')
         end) ls x
  end.

Fixpoint layers_shape (train : bool) (ls : list layer) (x : shape)
  : option shape :=
  match ls with
  | [] => Some x
  | l' :: ls' => obind (layer_shape train l' x) (layers_shape train ls')
  end.

(** [decode(encode(x))] as a caller composes them: the tensor [encode]
    returned is passed on, with quantization disabled. *)
Definition decode_encode {S : Scaling} {B : Backend S}
           (self : VQModelPaella scalar) (x : tensor)
           (rd_enc rd_dec : bool) : M output :=
  bind (encode self x rd_enc)
       (fun o => decode self (tensor_of o) true rd_dec).

(** ** Instances that agree *)

Section Agreement.

Context {S : Scaling} {B : Backend S}.

(** Two states of an instance that no call can tell apart: the same mode
    and parameters and, in evaluation mode (where the buffers are read),
    the same buffers. *)
Definition same_instance (s1 s2 : instance_state) : Prop :=
  training s1 = training s2
  /\ parameters s1 = parameters s2
  /\ (training s1 = false -> forall n, buffers s1 n = buffers s2 n).

(** What a call may do to the state: it keeps the mode and the
    parameters, and in evaluation mode the whole state. *)
Definition preserved (s s' : instance_state) : Prop :=
  training s' = training s
  /\ parameters s' = parameters s
  /\ (training s = false -> s' = s).

(** A layer that holds no [BatchNorm2d]. *)
Fixpoint no_batch_norm (l : layer) : bool :=
  match l with
  | Prim _ => true
  | BatchNorm2d _ => false
  | Sequential ls =>
      (fix all (ls : list layer) : bool :=
         match ls with
         | [] => true
         | l' :: ls' => no_batch_norm l' && all ls'
         end) ls
  end.

(** *** The methods, as the specification describes them *)

(** The state after a call, with the sub-modules it invoked recorded. *)
Definition logged (a : list submodule) (s : instance_state) (w : world)
  : world :=
  {| inst := s; calls := calls w ++ a |}.

Variable self : VQModelPaella scalar.

(** The input stage: pixel unshuffle by the scale factor, then the 1x1
    projection to the width of the first level. *)
Definition input_stage (x : tensor) (s : instance_state) : option tensor :=
  let cfg := config self in
  let r := up_down_scale_factor cfg in
  obind (prim_forward (parameters s) (InBlock, [0%nat]) (PixelUnshuffle r) x)
        (prim_forward (parameters s) (InBlock, [1%nat])
           (Conv2d (in_channels cfg * r ^ 2)
                   (c_hidden cfg / 2 ^ (levels cfg - 1)) 1 1 0 true)).

(** The downsampling cascade. *)
Definition downsampling_cascade (h : tensor) (s : instance_state)
  : option tensor * instance_state :=
  run_layer (DownBlocks, []) (down_blocks self) h s.

(** The decode cascade followed by the output stage. *)
Definition decode_cascade (q : tensor) (s : instance_state)
  : option tensor * instance_state :=
  match run_layer (UpBlocks, []) (up_blocks self) q s with
  | (Some x, s1) => run_layer (OutBlock, []) (out_block self) x s1
  | (None, s1) => (None, s1)
  end.

(** The sub-modules a run of the decode cascade invokes. *)
Definition decode_cascade_calls (q : tensor) (s : instance_state)
  : list submodule :=
  match run_layer (UpBlocks, []) (up_blocks self) q s with
  | (Some _, _) => [UpBlocks; OutBlock]
  | (None, _) => [UpBlocks]
  end.

(** "Runs input stage then downsampling cascade, then divides the result
    elementwise by the configured scale factor.  Returns the latent
    tensor." *)
Definition encode_described (x : tensor) (return_dict : bool) : M output :=
  fun w =>
    match input_stage x (inst w) with
    | None => (None, logged [InBlock] (inst w) w)
    | Some h =>
        match downsampling_cascade h (inst w) with
        | (Some h', s') =>
            let latent := div h' (scale_factor (config self)) in
            (Some (if return_dict then VQEncoderOutput latent
                   else Tuple1 latent),
             logged [InBlock; DownBlocks] s' w)
        | (None, s') => (None, logged [InBlock; DownBlocks] s' w)
        end
    end.

(** "If quantize is requested: multiply latent by the scale factor, then
    delegate to the external vector-quantizer, discarding the auxiliary
    loss terms.  If not requested: skip quantization and simply scale the
    latent by the same factor.  Runs the decode cascade and output stage
    on the (possibly quantized) scaled latent." *)
Definition decode_described (h : tensor) (quantize return_dict : bool)
  : M output :=
  fun w =>
    let scaled := mul h (scale_factor (config self)) in
    let wrap (r : option tensor) : option output :=
      option_map (fun d => if return_dict then DecoderOutput d else Tuple1 d)
                 r in
    if quantize then
      match vq_forward (parameters (inst w)) (vquantizer self) scaled with
      | Some (quantized, _, _) =>
          let (r, s') := decode_cascade quantized (inst w) in
          (wrap r,
           logged (VQuantizer :: decode_cascade_calls quantized (inst w)) s' w)
      | None => (None, logged [VQuantizer] (inst w) w)
      end
    else
      let (r, s') := decode_cascade scaled (inst w) in
      (wrap r, logged (decode_cascade_calls scaled (inst w)) s' w).

(** A call with [return_dict=False] against the same call with
    [return_dict=True]: both raise, or the first returns a 1-tuple whose
    element is the given field of the second's output. *)
Definition tuple_of_field (field : output -> option tensor)
           (r_tuple r_dict : option output) : Prop :=
  match r_tuple, r_dict with
  | None, None => True
  | Some (Tuple1 t), Some o => field o = Some t
  | _, _ => False
  end.

End Agreement.

(** ** Example configurations *)

(** The defaults, with the scale factor as a rational. *)
Definition cfg_default : Config Q := default_config (3764 # 10000)%Q.

(** A hidden width that is not a multiple of [2^(levels-1)]. *)
Definition cfg_hidden5 : Config Q :=
  {| in_channels := 3; out_channels := 3; up_down_scale_factor := 2;
     levels := 2; bottleneck_blocks := 12; c_hidden := 5; c_latent := 4;
     codebook_size := 8192; scale_factor := (3764 # 10000)%Q |}.

(** A pixel-shuffle factor other than 2. *)
Definition cfg_scale3 : Config Q :=
  {| in_channels := 3; out_channels := 3; up_down_scale_factor := 3;
     levels := 2; bottleneck_blocks := 12; c_hidden := 384; c_latent := 4;
     codebook_size := 8192; scale_factor := (3764 # 10000)%Q |}.

(** Fewer output than input channels. *)
Definition cfg_out1 : Config Q :=
  {| in_channels := 3; out_channels := 1; up_down_scale_factor := 2;
     levels := 2; bottleneck_blocks := 12; c_hidden := 384; c_latent := 4;
     codebook_size := 8192; scale_factor := (3764 # 10000)%Q |}.

(** The defaults over rational tensors. *)
Definition cfg_rational : Config Qc := default_config (Q2Qc (3764 # 10000)).

(** ** The state dict of the conversion script
    ([scripts/convert_wuerstchen.py])

    A Python [dict] keeps its keys unique and in insertion order: it is a
    list of pairs here, and the methods follow Python's (assigning to a key
    that is present keeps its position, a missing key raises [KeyError],
    which is [None]). *)

Module Script.

Import String.

Section Dict.

Variable V : Type.

Definition dict : Type := list (string * V).

Definition keys (d : dict) : list string := List.map fst d.

(** [d[k]] *)
Fixpoint getitem (d : dict) (k : string) : option V :=
  match d with
  | [] => None
  | (k', v) :: d' => if String.eqb k' k then Some v else getitem d' k
  end.

(** [d[k] = v] *)
Fixpoint setitem (d : dict) (k : string) (v : V) : dict :=
  match d with
  | [] => [(k, v)]
  | (k', v') :: d' =>
      if String.eqb k' k then (k', v) :: d' else (k', v') :: setitem d' k v
  end.

(** [d.pop(k)]: the value, and the dict without the key. *)
Fixpoint pop (d : dict) (k : string) : option (V * dict) :=
  match d with
  | [] => None
  | (k', v) :: d' =>
      if String.eqb k' k then Some (v, d')
      else match pop d' k with
           | Some (r, d'') => Some (r, (k', v) :: d'')
           | None => None
           end
  end.

Definition legacy_key : string := "vquantizer.codebook.weight".
Definition target_key : string := "vquantizer.embedding.weight".

(** The two statements that rename the codebook of the checkpoint:
    [state_dict["vquantizer.embedding.weight"] =
       state_dict["vquantizer.codebook.weight"]] and
    [state_dict.pop("vquantizer.codebook.weight")]. *)
Definition rename_codebook (state_dict : dict) : option dict :=
  v <- getitem state_dict legacy_key ;;
  let state_dict := setitem state_dict target_key v in
  r <- pop state_dict legacy_key ;;
  Some (snd r).

End Dict.

(** A checkpoint in the legacy naming, with numbers in place of tensors. *)
Definition legacy_checkpoint : dict Z :=
  [("in_block.1.weight"%string, 1); (legacy_key, 2);
   ("out_block.0.bias"%string, 3)].

End Script.

(** * Properties *)

(** ** Python lists *)

Lemma range_length (n : Z) : length (Py.range n) = Z.to_nat n.
Proof. unfold Py.range. now rewrite length_map, length_seq. Qed.

Lemma range_succ (n : Z) :
  0 <= n -> Py.range (n + 1) = Py.range n ++ [n].
Proof.
  intros Hn. unfold Py.range.
  replace (Z.to_nat (n + 1)) with (Datatypes.S (Z.to_nat n)) by lia.
  rewrite seq_S, map_app. simpl. now rewrite Z2Nat.id.
Qed.

Lemma range_In (n i : Z) : In i (Py.range n) <-> 0 <= i < n.
Proof.
  unfold Py.range. rewrite in_map_iff. split.
  - intros (k & <- & Hk). apply in_seq in Hk. lia.
  - intros Hi. exists (Z.to_nat i). split; [lia|]. apply in_seq. lia.
Qed.

Lemma range_rev_nth (n i : Z) :
  0 <= i < n ->
  nth_error (rev (Py.range n)) (Z.to_nat i) = Some (n - 1 - i).
Proof.
  intros Hi. rewrite nth_error_rev, range_length.
  destruct (Nat.ltb_spec (Z.to_nat i) (Z.to_nat n)) as [_|]; [|lia].
  unfold Py.range. rewrite nth_error_map, nth_error_seq.
  destruct (Nat.ltb_spec (Z.to_nat n - Datatypes.S (Z.to_nat i)) (Z.to_nat n));
    [|lia].
  simpl. f_equal. lia.
Qed.

Lemma for_each_app {A S : Type} (body : S -> A -> option S) xs ys acc :
  Py.for_each body (xs ++ ys) acc =
  obind (Py.for_each body xs acc) (Py.for_each body ys).
Proof.
  revert acc. induction xs as [|x xs IH]; intros acc; simpl; [reflexivity|].
  destruct (body acc x); [apply IH | reflexivity].
Qed.

(** A loop whose body appends [f x] leaves the concatenation of the [f x]. *)
Lemma for_each_appends {A L : Type} (body : list L -> A -> option (list L))
      (f : A -> list L) (xs : list A) :
  (forall acc x, In x xs -> body acc x = Some (acc ++ f x)) ->
  forall acc, Py.for_each body xs acc = Some (acc ++ flat_map f xs).
Proof.
  induction xs as [|x xs IH]; intros Hb acc; simpl.
  - now rewrite app_nil_r.
  - rewrite (Hb acc x (or_introl eq_refl)).
    rewrite IH; [now rewrite app_assoc|].
    intros acc' y Hy. apply Hb. now right.
Qed.

(** ** The channel-width schedule *)

Section Schedule.

Variable float : Type.
Variable cfg : Config float.

Lemma c_levels_length : length (c_levels cfg) = Z.to_nat (levels cfg).
Proof. unfold c_levels. now rewrite length_map, length_rev, range_length. Qed.

Lemma c_levels_index (i : Z) :
  0 <= i < levels cfg ->
  Py.index (c_levels cfg) i = Some (c_at cfg i).
Proof.
  intros Hi. unfold Py.index.
  destruct (Z.ltb_spec i 0) as [|_]; [lia|].
  unfold c_levels. rewrite nth_error_map, range_rev_nth by assumption.
  reflexivity.
Qed.

Lemma c_levels_index_out (i : Z) :
  0 <= i -> levels cfg <= i -> Py.index (c_levels cfg) i = None.
Proof.
  intros H0 Hi. unfold Py.index.
  destruct (Z.ltb_spec i 0) as [|_]; [lia|].
  apply nth_error_None. rewrite c_levels_length. lia.
Qed.

Lemma c_at_last : c_at cfg (levels cfg - 1) = c_hidden cfg.
Proof.
  unfold c_at. replace (levels cfg - 1 - (levels cfg - 1)) with 0 by lia.
  simpl. apply Z.div_1_r.
Qed.

Lemma c_levels_last :
  0 < levels cfg -> Py.index (c_levels cfg) (-1) = Some (c_hidden cfg).
Proof.
  intros HL. unfold Py.index. simpl (-1 <? 0).
  rewrite c_levels_length.
  destruct (Z.ltb_spec (-1 + Z.of_nat (Z.to_nat (levels cfg))) 0); [lia|].
  replace (Z.to_nat (-1 + Z.of_nat (Z.to_nat (levels cfg))))
    with (Z.to_nat (levels cfg - 1)) by lia.
  unfold c_levels. rewrite nth_error_map, range_rev_nth by lia.
  simpl. f_equal.
  replace (levels cfg - 1 - (levels cfg - 1)) with 0 by lia.
  apply Z.div_1_r.
Qed.

(** Widths do not decrease with the level. *)
Lemma c_at_mono (i j : Z) :
  0 <= c_hidden cfg -> i <= j <= levels cfg - 1 ->
  c_at cfg i <= c_at cfg j.
Proof.
  intros Hc Hij. unfold c_at.
  apply Z.div_le_compat_l; [assumption|]. split.
  - apply Z.pow_pos_nonneg; lia.
  - apply Z.pow_le_mono_r; lia.
Qed.

Lemma c_at_pos (i : Z) :
  2 ^ (levels cfg - 1) <= c_hidden cfg -> 0 <= i <= levels cfg - 1 ->
  0 < c_at cfg i.
Proof.
  intros Hc Hi. unfold c_at.
  apply Z.div_str_pos. split; [apply Z.pow_pos_nonneg; lia|].
  etransitivity; [|exact Hc]. apply Z.pow_le_mono_r; lia.
Qed.

(** *** The layer constructors *)

Lemma new_Conv2d_ok a b k s p bias :
  0 <= a -> 0 <= b ->
  new_Conv2d a b k s p bias = Some (Prim (Conv2d a b k s p bias)).
Proof.
  intros Ha Hb. unfold new_Conv2d.
  destruct (Z.leb_spec 0 a); [|lia]. destruct (Z.leb_spec 0 b); [|lia].
  reflexivity.
Qed.

Lemma new_Conv2d_Some a b k s p bias l :
  new_Conv2d a b k s p bias = Some l -> 0 <= a /\ 0 <= b.
Proof.
  unfold new_Conv2d.
  destruct (Z.leb_spec 0 a); destruct (Z.leb_spec 0 b); simpl;
    intros Hsome; try discriminate; lia.
Qed.

Lemma new_ConvTranspose2d_ok a b k s p :
  0 <= a -> 0 <= b ->
  new_ConvTranspose2d a b k s p = Some (Prim (ConvTranspose2d a b k s p)).
Proof.
  intros Ha Hb. unfold new_ConvTranspose2d.
  destruct (Z.leb_spec 0 a); [|lia]. destruct (Z.leb_spec 0 b); [|lia].
  reflexivity.
Qed.

Lemma new_MixingResidualBlock_ok c :
  1 <= c ->
  new_MixingResidualBlock c (c * 4)
  = Some (Prim (MixingResidualBlock c (c * 4))).
Proof.
  intros Hc. unfold new_MixingResidualBlock.
  destruct (Z.leb_spec 1 c); [|lia]. destruct (Z.leb_spec 0 (c * 4)); [|lia].
  reflexivity.
Qed.

Lemma new_MixingResidualBlock_Some c e l :
  new_MixingResidualBlock c e = Some l -> 1 <= c.
Proof.
  unfold new_MixingResidualBlock.
  destruct (Z.leb_spec 1 c); simpl; intros Hsome; [assumption | discriminate].
Qed.

Lemma new_VectorQuantizer_Some size dim lg bt q :
  new_VectorQuantizer size dim lg bt = Some q -> 1 <= size /\ 0 <= dim.
Proof.
  unfold new_VectorQuantizer.
  destruct (Z.leb_spec 1 size); destruct (Z.leb_spec 0 dim); simpl;
    intros Hsome; try discriminate; lia.
Qed.

(** A first level with a channel leaves every level with one. *)
Lemma c_at_first_pos :
  0 < levels cfg -> 1 <= c_at cfg 0 -> 2 ^ (levels cfg - 1) <= c_hidden cfg.
Proof.
  intros HL H. unfold c_at in H. rewrite Z.sub_0_r in H.
  assert (Hp : 0 < 2 ^ (levels cfg - 1)) by (apply Z.pow_pos_nonneg; lia).
  pose proof (Z.mul_div_le (c_hidden cfg) _ Hp). nia.
Qed.

Lemma range_head (n : Z) :
  0 < n -> exists rest, Py.range n = 0 :: rest.
Proof.
  intros Hn. unfold Py.range.
  destruct (Z.to_nat n) as [|k] eqn:E; [lia|].
  simpl. now eexists.
Qed.

(** *** The loops of the constructor *)

Lemma down_body_spec acc i :
  2 ^ (levels cfg - 1) <= c_hidden cfg ->
  0 <= i < levels cfg ->
  down_body cfg acc i = Some (acc ++ down_layers cfg i).
Proof.
  intros Hc Hi. unfold down_body, down_layers.
  rewrite (c_levels_index Hi).
  rewrite new_MixingResidualBlock_ok
    by (pose proof (@c_at_pos i Hc ltac:(lia)); lia).
  destruct (Z.ltb_spec 0 i).
  - rewrite c_levels_index by lia.
    rewrite new_Conv2d_ok
      by (pose proof (@c_at_pos i Hc ltac:(lia));
          pose proof (@c_at_pos (i - 1) Hc ltac:(lia)); lia).
    now rewrite <- app_assoc.
  - reflexivity.
Qed.

Lemma up_inner_loop i (js : list Z) acc :
  2 ^ (levels cfg - 1) <= c_hidden cfg ->
  0 <= i < levels cfg ->
  Py.for_each (up_inner cfg i) js acc =
  Some (acc ++ repeat (Prim (MixingResidualBlock
                               (c_at cfg (levels cfg - 1 - i))
                               (c_at cfg (levels cfg - 1 - i) * 4)))
                      (length js)).
Proof.
  intros Hc Hi. revert acc.
  induction js as [|j js IH]; intros acc; simpl.
  - now rewrite app_nil_r.
  - unfold up_inner at 1. rewrite c_levels_index by lia.
    rewrite new_MixingResidualBlock_ok
      by (pose proof (@c_at_pos (levels cfg - 1 - i) Hc ltac:(lia)); lia).
    rewrite IH. now rewrite <- app_assoc.
Qed.

Lemma up_body_spec acc i :
  2 ^ (levels cfg - 1) <= c_hidden cfg ->
  0 <= i < levels cfg ->
  up_body cfg acc i = Some (acc ++ up_layers cfg i).
Proof.
  intros Hc Hi. unfold up_body, up_layers.
  rewrite (up_inner_loop _ _ Hc Hi), range_length.
  destruct (Z.ltb_spec i (levels cfg - 1)).
  - rewrite !c_levels_index by lia.
    rewrite new_ConvTranspose2d_ok
      by (pose proof (@c_at_pos (levels cfg - 1 - i) Hc ltac:(lia));
          pose proof (@c_at_pos (levels cfg - 2 - i) Hc ltac:(lia)); lia).
    now rewrite <- app_assoc.
  - now rewrite app_nil_r.
Qed.

Lemma constructible_iff :
  constructible cfg = true <->
  0 < levels cfg
  /\ 2 ^ (levels cfg - 1) <= c_hidden cfg
  /\ 0 <= in_channels cfg * up_down_scale_factor cfg ^ 2
  /\ 0 <= out_channels cfg * up_down_scale_factor cfg ^ 2
  /\ 0 <= c_latent cfg
  /\ 1 <= codebook_size cfg.
Proof.
  unfold constructible.
  rewrite !andb_true_iff, Z.ltb_lt, !Z.leb_le. tauto.
Qed.

(** Where no layer constructor raises, the constructor returns
    [built cfg]. *)
Lemma init_built : constructible cfg = true -> init cfg = Some (built cfg).
Proof.
  intros H. apply constructible_iff in H.
  destruct H as (HL & Hc & Hin & Hout & Hlat & Hcb).
  assert (Hh : 0 <= c_hidden cfg)
    by (pose proof (Z.pow_pos_nonneg 2 (levels cfg - 1) ltac:(lia) ltac:(lia));
        lia).
  pose proof (@c_at_pos 0 Hc ltac:(lia)) as H0.
  unfold init.
  rewrite c_levels_index by lia.
  rewrite new_Conv2d_ok by lia.
  rewrite (for_each_appends (down_body cfg) (down_layers cfg)).
  2:{ intros acc x Hx. apply down_body_spec; [exact Hc | now apply range_In]. }
  rewrite (c_levels_last HL).
  rewrite !new_Conv2d_ok by lia.
  unfold new_BatchNorm2d, new_VectorQuantizer.
  destruct (Z.leb_spec 0 (c_latent cfg)); [|lia].
  destruct (Z.leb_spec 1 (codebook_size cfg)); [|lia].
  cbn [andb].
  rewrite (for_each_appends (up_body cfg) (up_layers cfg)).
  2:{ intros acc x Hx. apply up_body_spec; [exact Hc | now apply range_In]. }
  reflexivity.
Qed.

(** Without levels the schedule is empty and [c_levels[0]] raises. *)
Lemma init_no_levels : levels cfg <= 0 -> init cfg = None.
Proof.
  intros HL. unfold init. now rewrite c_levels_index_out by lia.
Qed.

(** The constructor returns only where no layer constructor raises. *)
Lemma init_constructible m : init cfg = Some m -> constructible cfg = true.
Proof.
  intros H. apply constructible_iff.
  destruct (Z_lt_le_dec 0 (levels cfg)) as [HL|HL];
    [|rewrite (init_no_levels HL) in H; discriminate].
  unfold init in H.
  rewrite c_levels_index in H by lia.
  destruct (new_Conv2d (in_channels cfg * up_down_scale_factor cfg ^ 2)
              (c_at cfg 0) 1 1 0 true) as [conv_in|] eqn:E1; [|discriminate].
  apply new_Conv2d_Some in E1.
  destruct (Py.for_each (down_body cfg) (Py.range (levels cfg)) [])
    as [down|] eqn:E2; [|discriminate].
  destruct (range_head HL) as [rest Er]. rewrite Er in E2. simpl in E2.
  destruct (down_body cfg [] 0) as [acc'|] eqn:E3; [|discriminate].
  unfold down_body in E3. simpl in E3.
  rewrite c_levels_index in E3 by lia.
  destruct (new_MixingResidualBlock (c_at cfg 0) (c_at cfg 0 * 4))
    as [blk|] eqn:E4; [|discriminate].
  apply new_MixingResidualBlock_Some in E4.
  pose proof (c_at_first_pos HL E4) as Hc.
  rewrite (c_levels_last HL) in H.
  destruct (new_Conv2d (c_hidden cfg) (c_latent cfg) 1 1 0 false)
    as [conv_latent|] eqn:E5; [|discriminate].
  apply new_Conv2d_Some in E5.
  destruct (new_BatchNorm2d (c_latent cfg)) as [norm|]; [|discriminate].
  destruct (new_VectorQuantizer (codebook_size cfg) (c_latent cfg)
              false (25 # 100)) as [vq|] eqn:E6; [|discriminate].
  apply new_VectorQuantizer_Some in E6.
  destruct (new_Conv2d (c_latent cfg) (c_hidden cfg) 1 1 0 true)
    as [conv_up|]; [|discriminate].
  destruct (Py.for_each (up_body cfg) (Py.range (levels cfg))
              [Sequential [conv_up]]) as [up|]; [|discriminate].
  destruct (new_Conv2d (c_at cfg 0)
              (out_channels cfg * up_down_scale_factor cfg ^ 2) 1 1 0 true)
    as [conv_out|] eqn:E7; [|discriminate].
  apply new_Conv2d_Some in E7.
  repeat split; lia.
Qed.

End Schedule.

(** Some level is not exactly half the next one when the hidden width is
    not a multiple of [2^n]. *)
Lemma inexact_halving (c : Z) (n : nat) :
  c mod 2 ^ Z.of_nat n <> 0 ->
  exists j, 0 <= j < Z.of_nat n /\ c / 2 ^ j <> 2 * (c / 2 ^ (j + 1)).
Proof.
  induction n as [|n IH]; intros Hc.
  - simpl in Hc. rewrite Z.mod_1_r in Hc. congruence.
  - destruct (Z.eq_dec (c mod 2 ^ Z.of_nat n) 0) as [E|E].
    + exists (Z.of_nat n). split; [lia|].
      intros Hh. apply Hc.
      assert (Hp : 0 < 2 ^ Z.of_nat n) by (apply Z.pow_pos_nonneg; lia).
      replace (Z.of_nat (Datatypes.S n)) with (Z.of_nat n + 1) by lia.
      rewrite Z.pow_add_r, Z.pow_1_r by lia.
      rewrite Z.pow_add_r, Z.pow_1_r in Hh by lia.
      pose proof (Z.div_mod c (2 ^ Z.of_nat n) ltac:(lia)) as Hd.
      rewrite E, Z.add_0_r in Hd.
      rewrite Hh in Hd.
      rewrite Hd at 1.
      replace (2 ^ Z.of_nat n * (2 * (c / (2 ^ Z.of_nat n * 2))))
        with ((c / (2 ^ Z.of_nat n * 2)) * (2 ^ Z.of_nat n * 2)) by ring.
      apply Z.mod_mul. lia.
    + destruct (IH E) as (j & Hj & Hne). exists j. split; [lia|assumption].
Qed.

(** ** Claims about the constructor *)

(** A configuration with positive sizes is one on which no layer
    constructor raises. *)
Lemma valid_constructible (float : Type) (cfg : Config float) :
  valid_config cfg -> constructible cfg = true.
Proof.
  intros V. apply constructible_iff.
  pose proof (valid_in V). pose proof (valid_out V).
  pose proof (valid_scale V). pose proof (valid_latent V).
  pose proof (valid_codebook V).
  split; [apply (valid_levels V)|]. split; [apply (valid_hidden V)|].
  rewrite Z.pow_2_r. repeat split; nia.
Qed.

(** C5, as stated, fails: with the defaults the schedule is [192, 384]
    and index 0 holds the narrowest width, not the widest. *)
Lemma index0_not_widest :
  1 <= levels cfg_default
  /\ Py.index (c_levels cfg_default) 0 = Some 192
  /\ Py.index (c_levels cfg_default) 1 = Some 384
  /\ ~ (forall i a b,
          0 <= i < levels cfg_default ->
          Py.index (c_levels cfg_default) 0 = Some a ->
          Py.index (c_levels cfg_default) i = Some b ->
          b <= a).
Proof.
  split; [simpl; lia|]. split; [reflexivity|]. split; [reflexivity|].
  intros H.
  pose proof (H 1 192 384 ltac:(simpl; lia) eq_refl eq_refl). lia.
Qed.

(** C5, amended: for a configuration with at least one level, the
    channel-width schedule the constructor builds has one entry per level
    and [c_levels[i] = c_hidden // 2^(levels-1-i)] for every [i] in
    [0..levels-1]; index [levels-1] holds [c_hidden] and index 0 holds
    [c_hidden // 2^(levels-1)], the width of the shallowest level, the one
    the input stage of a constructed instance projects to; for a
    [c_hidden] that is not negative the widths do not decrease with the
    index, so index 0 holds the narrowest level and index [levels-1] the
    widest. *)
Theorem c_levels_schedule (float : Type) (cfg : Config float) :
  1 <= levels cfg ->
  length (c_levels cfg) = Z.to_nat (levels cfg)
  /\ (forall i, 0 <= i < levels cfg ->
        Py.index (c_levels cfg) i
        = Some (c_hidden cfg / 2 ^ (levels cfg - 1 - i)))
  /\ Py.index (c_levels cfg) (levels cfg - 1) = Some (c_hidden cfg)
  /\ (forall m, init cfg = Some m ->
        in_block m =
        Sequential
          [Prim (PixelUnshuffle (up_down_scale_factor cfg));
           Prim (Conv2d (in_channels cfg * up_down_scale_factor cfg ^ 2)
                        (c_hidden cfg / 2 ^ (levels cfg - 1)) 1 1 0 true)])
  /\ (0 <= c_hidden cfg ->
      forall i j a b,
        0 <= i <= j -> j < levels cfg ->
        Py.index (c_levels cfg) i = Some a ->
        Py.index (c_levels cfg) j = Some b ->
        a <= b).
Proof.
  intros HL. split; [apply c_levels_length|]. split; [|split; [|split]].
  - intros i Hi. now rewrite c_levels_index.
  - rewrite c_levels_index by lia. now rewrite c_at_last.
  - intros m Hm. pose proof (init_constructible _ Hm) as Hc.
    rewrite (init_built _ Hc) in Hm. injection Hm as <-.
    simpl. unfold c_at. now rewrite Z.sub_0_r.
  - intros Hh i j a b Hij Hj Ha Hb.
    rewrite c_levels_index in Ha by lia. rewrite c_levels_index in Hb by lia.
    injection Ha as <-. injection Hb as <-.
    apply c_at_mono; [assumption | lia].
Qed.

Lemma c_levels_schedule_witness :
  1 <= levels cfg_default
  /\ Py.index (c_levels cfg_default) 0 = Some 192
  /\ Py.index (c_levels cfg_default) 1 = Some 384
  /\ 192 <= 384.
Proof.
  assert (H : 1 <= levels cfg_default) by (simpl; lia).
  split; [exact H|].
  destruct (c_levels_schedule cfg_default H) as (_ & Hi & _ & _ & Hm).
  pose proof (Hi 0 ltac:(simpl; lia)) as H0.
  pose proof (Hi 1 ltac:(simpl; lia)) as H1.
  split; [exact H0|]. split; [exact H1|].
  exact (Hm ltac:(simpl; lia) 0 1 192 384
            ltac:(lia) ltac:(simpl; lia) H0 H1).
Defined.

(** C4, as stated, fails: with [c_hidden = 5] and two levels, 5 is not a
    multiple of [2^(levels-1)], yet the constructor neither raises nor
    departs from [c_levels[i] = c_hidden // 2^(levels-1-i)]. *)
Lemma indivisible_hidden_not_rejected :
  c_hidden cfg_hidden5 mod 2 ^ (levels cfg_hidden5 - 1) <> 0
  /\ ~ (init cfg_hidden5 = None
        \/ exists i, 0 <= i < levels cfg_hidden5
             /\ Py.index (c_levels cfg_hidden5) i
                <> Some (c_hidden cfg_hidden5
                         / 2 ^ (levels cfg_hidden5 - 1 - i))).
Proof.
  split; [vm_compute; discriminate|].
  intros [Hnone | (i & Hi & Hne)].
  - vm_compute in Hnone. discriminate.
  - simpl in Hi.
    assert (Hc : i = 0 \/ i = 1) by lia.
    destruct Hc as [-> | ->]; apply Hne; reflexivity.
Qed.

(** C4, amended: a hidden width that is not a multiple of
    [2^(levels-1)] is accepted.  The constructor returns an instance, its
    schedule is [c_levels[i] = c_hidden // 2^(levels-1-i)] with floor
    division, and some level is then not exactly half the next. *)
Theorem indivisible_hidden_accepted (float : Type) (cfg : Config float) :
  valid_config cfg ->
  c_hidden cfg mod 2 ^ (levels cfg - 1) <> 0 ->
  (exists m, init cfg = Some m /\ config m = cfg)
  /\ (forall i, 0 <= i < levels cfg ->
        Py.index (c_levels cfg) i
        = Some (c_hidden cfg / 2 ^ (levels cfg - 1 - i)))
  /\ (exists i a b, 0 <= i < levels cfg - 1
        /\ Py.index (c_levels cfg) i = Some a
        /\ Py.index (c_levels cfg) (i + 1) = Some b
        /\ b <> 2 * a).
Proof.
  intros V Hc. pose proof (valid_levels V) as HL.
  split; [|split].
  - exists (built cfg).
    split; [now apply init_built, valid_constructible | reflexivity].
  - intros i Hi. now rewrite c_levels_index.
  - replace (levels cfg - 1) with (Z.of_nat (Z.to_nat (levels cfg - 1))) in Hc
      by lia.
    destruct (inexact_halving _ _ Hc) as (j & Hj & Hne).
    exists (levels cfg - 2 - j), (c_at cfg (levels cfg - 2 - j)),
           (c_at cfg (levels cfg - 1 - j)).
    split; [lia|]. split; [apply c_levels_index; lia|].
    split; [replace (levels cfg - 2 - j + 1) with (levels cfg - 1 - j) by lia;
            apply c_levels_index; lia|].
    unfold c_at.
    replace (levels cfg - 1 - (levels cfg - 1 - j)) with j by lia.
    replace (levels cfg - 1 - (levels cfg - 2 - j)) with (j + 1) by lia.
    exact Hne.
Qed.

Lemma cfg_hidden5_valid : valid_config cfg_hidden5.
Proof. constructor; simpl; lia. Qed.

Lemma indivisible_hidden_accepted_witness :
  valid_config cfg_hidden5
  /\ c_hidden cfg_hidden5 mod 2 ^ (levels cfg_hidden5 - 1) <> 0
  /\ (exists m, init cfg_hidden5 = Some m /\ config m = cfg_hidden5)
  /\ Py.index (c_levels cfg_hidden5) 0 = Some 2
  /\ Py.index (c_levels cfg_hidden5) 1 = Some 5.
Proof.
  assert (Hc : c_hidden cfg_hidden5 mod 2 ^ (levels cfg_hidden5 - 1) <> 0)
    by (vm_compute; discriminate).
  destruct (indivisible_hidden_accepted cfg_hidden5_valid Hc) as (Hm & Hi & _).
  split; [exact cfg_hidden5_valid|]. split; [exact Hc|].
  split; [exact Hm|]. split.
  - exact (Hi 0 ltac:(simpl; lia)).
  - exact (Hi 1 ltac:(simpl; lia)).
Defined.

(** ** Calling layers *)

(** Induction on layers, through the children of [Sequential]. *)
Lemma layer_nested_ind (P : layer -> Prop) :
  (forall p, P (Prim p)) ->
  (forall c, P (BatchNorm2d c)) ->
  (forall ls, Forall P ls -> P (Sequential ls)) ->
  forall l, P l.
Proof.
  intros HP HB HS. fix IH 1. intros [p | c | ls].
  - apply HP.
  - apply HB.
  - apply HS. induction ls as [|l ls IHls]; constructor; [apply IH | exact IHls].
Qed.

Section Running.

Context {S : Scaling} {B : Backend S}.

Lemma run_layer_Sequential n ls x s :
  run_layer n (Sequential ls) x s = run_children n 0 ls x s.
Proof.
  simpl. generalize 0%nat. revert x s.
  induction ls as [|l ls IH]; intros x s i; simpl; [reflexivity|].
  destruct (run_layer (child n i) l x s) as [[y|] s']; [apply IH | reflexivity].
Qed.

Lemma run_children_app n i ls1 ls2 x s :
  run_children n i (ls1 ++ ls2) x s =
  match run_children n i ls1 x s with
  | (Some y, s') => run_children n (i + length ls1) ls2 y s'
  | (None, s') => (None, s')
  end.
Proof.
  revert i x s. induction ls1 as [|l ls1 IH]; intros i x s; simpl.
  - now rewrite Nat.add_0_r.
  - destruct (run_layer (child n i) l x s) as [[y|] s']; [|reflexivity].
    rewrite IH. now rewrite Nat.add_succ_r.
Qed.

(** *** What a call may change *)

Lemma preserved_refl s : preserved s s.
Proof. repeat split. Qed.

Lemma preserved_trans s1 s2 s3 :
  preserved s1 s2 -> preserved s2 s3 -> preserved s1 s3.
Proof.
  intros (T1 & P1 & E1) (T2 & P2 & E2). repeat split; try congruence.
  intros Ht. rewrite E2 by congruence. now apply E1.
Qed.

Lemma run_batch_norm_preserved n c x s :
  preserved s (snd (run_batch_norm n c x s)).
Proof.
  unfold run_batch_norm.
  destruct (bn_check_input_dim x); [|apply preserved_refl].
  destruct (training s) eqn:Ht; [|apply preserved_refl].
  destruct (batch_norm_train (parameters s) n c x); simpl;
    repeat split; simpl; congruence.
Qed.

Lemma run_layer_preserved l :
  forall n x s, preserved s (snd (run_layer n l x s)).
Proof.
  induction l as [p | c | ls IH] using layer_nested_ind; intros n x s.
  - apply preserved_refl.
  - apply run_batch_norm_preserved.
  - rewrite run_layer_Sequential. generalize 0%nat. revert x s.
    induction IH as [|l ls Hl _ IHls]; intros x s i; simpl.
    + apply preserved_refl.
    + specialize (Hl (child n i) x s).
      destruct (run_layer (child n i) l x s) as [[y|] s']; simpl in *.
      * eapply preserved_trans; [exact Hl | apply IHls].
      * exact Hl.
Qed.

(** A layer without [BatchNorm2d] leaves the state alone in any mode. *)
Lemma run_layer_no_batch_norm l :
  no_batch_norm l = true ->
  forall n x s, snd (run_layer n l x s) = s.
Proof.
  induction l as [p | c | ls IH] using layer_nested_ind; intros Hn n x s.
  - reflexivity.
  - discriminate.
  - rewrite run_layer_Sequential. generalize 0%nat. revert x s.
    simpl in Hn.
    induction IH as [|l ls Hl _ IHls]; intros x s i; simpl; [reflexivity|].
    apply andb_true_iff in Hn. destruct Hn as [Hn1 Hn2].
    specialize (Hl Hn1 (child n i) x s).
    destruct (run_layer (child n i) l x s) as [[y|] s']; simpl in *; subst s'.
    + now apply IHls.
    + reflexivity.
Qed.

(** *** What the result of a call depends on *)

Lemma same_instance_refl s : same_instance s s.
Proof. repeat split. Qed.

Lemma preserved_same_instance s s' :
  preserved s s' -> same_instance s s'.
Proof.
  intros (T & P & E). repeat split; try congruence.
  intros Ht n. now rewrite E.
Qed.

Lemma same_instance_trans s1 s2 s3 :
  same_instance s1 s2 -> same_instance s2 s3 -> same_instance s1 s3.
Proof.
  intros (T1 & P1 & E1) (T2 & P2 & E2). repeat split; try congruence.
  intros Ht n. rewrite E1 by assumption. apply E2. congruence.
Qed.

Lemma same_instance_sym s1 s2 : same_instance s1 s2 -> same_instance s2 s1.
Proof.
  intros (T1 & P1 & E1). repeat split; try congruence.
  intros Ht n. symmetry. apply E1. congruence.
Qed.

Lemma run_batch_norm_same n c x s1 s2 :
  same_instance s1 s2 ->
  fst (run_batch_norm n c x s1) = fst (run_batch_norm n c x s2).
Proof.
  intros (T & P & E). unfold run_batch_norm.
  destruct (bn_check_input_dim x); [|reflexivity].
  rewrite <- T, <- P.
  destruct (training s1) eqn:Ht.
  - destruct (batch_norm_train (parameters s1) n c x); reflexivity.
  - simpl. now rewrite E.
Qed.

(** Calls from states that agree return the same result and leave states
    that agree. *)
Lemma run_layer_same l :
  forall n x s1 s2,
    same_instance s1 s2 ->
    fst (run_layer n l x s1) = fst (run_layer n l x s2)
    /\ same_instance (snd (run_layer n l x s1)) (snd (run_layer n l x s2)).
Proof.
  assert (Hpres : forall l n x s1 s2, same_instance s1 s2 ->
            same_instance (snd (run_layer n l x s1)) (snd (run_layer n l x s2))).
  { intros l0 n x s1 s2 H.
    eapply same_instance_trans;
      [apply same_instance_sym, preserved_same_instance, run_layer_preserved|].
    eapply same_instance_trans; [exact H|].
    apply preserved_same_instance, run_layer_preserved. }
  intros n x s1 s2 H. split; [|now apply Hpres].
  revert n x s1 s2 H.
  induction l as [p | c | ls IH] using layer_nested_ind; intros n x s1 s2 H.
  - simpl. destruct H as (_ & P & _). now rewrite P.
  - now apply run_batch_norm_same.
  - rewrite !run_layer_Sequential. generalize 0%nat. revert x s1 s2 H.
    induction IH as [|l ls Hl _ IHls]; intros x s1 s2 H i; simpl;
      [reflexivity|].
    pose proof (Hl (child n i) x s1 s2 H) as Hf.
    pose proof (Hpres l (child n i) x s1 s2 H) as Hs.
    destruct (run_layer (child n i) l x s1) as [[y1|] s1'];
      destruct (run_layer (child n i) l x s2) as [[y2|] s2'];
      simpl in *; try congruence.
    injection Hf as ->. now apply IHls.
Qed.

End Running.

(** ** The methods *)

Section Methods.

Context {S : Scaling} {B : Backend S}.

Variable self : VQModelPaella scalar.

Lemma logged_app a b s s' w :
  logged b s' (logged a s w) = logged (a ++ b) s' w.
Proof. unfold logged. simpl. now rewrite app_assoc. Qed.

(** [encode], with the monad unfolded. *)
Lemma encode_unfold x rd w :
  encode self x rd w =
  match run_layer (InBlock, []) (in_block self) x (inst w) with
  | (Some h, s1) =>
      match run_layer (DownBlocks, []) (down_blocks self) h s1 with
      | (Some h', s2) =>
          (Some (if rd then VQEncoderOutput (encode_scale self h')
                 else Tuple1 (encode_scale self h')),
           logged [InBlock; DownBlocks] s2 w)
      | (None, s2) => (None, logged [InBlock; DownBlocks] s2 w)
      end
  | (None, s1) => (None, logged [InBlock] s1 w)
  end.
Proof.
  unfold encode, bind, call, ret.
  destruct (run_layer (InBlock, []) (in_block self) x (inst w)) as [[h|] s1];
    [|reflexivity].
  simpl.
  destruct (run_layer (DownBlocks, []) (down_blocks self) h s1) as [[h'|] s2];
    unfold logged; simpl; rewrite <- ?app_assoc; [|reflexivity].
  destruct rd; reflexivity.
Qed.

(** [decode], with the monad unfolded. *)
Lemma decode_unfold h fnq rd w :
  decode self h fnq rd w =
  decode_described self h (negb fnq) rd w.
Proof.
  unfold decode, decode_described, decode_cascade, decode_cascade_calls,
    decode_scale, bind, call, ret.
  destruct fnq; simpl.
  - destruct (run_layer (UpBlocks, []) (up_blocks self)
                (mul h (scale_factor (config self))) (inst w))
      as [[x|] s1]; simpl; [|reflexivity].
    destruct (run_layer (OutBlock, []) (out_block self) x s1) as [[d|] s2];
      unfold logged; simpl; rewrite <- ?app_assoc; [|reflexivity].
    destruct rd; reflexivity.
  - destruct (vq_forward (parameters (inst w)) (vquantizer self)
                (mul h (scale_factor (config self))))
      as [[[q l] i]|]; simpl; [|reflexivity].
    destruct (run_layer (UpBlocks, []) (up_blocks self) q (inst w))
      as [[x|] s1]; simpl; unfold logged; simpl; rewrite <- ?app_assoc;
      [|reflexivity].
    destruct (run_layer (OutBlock, []) (out_block self) x s1) as [[d|] s2];
      simpl; rewrite <- ?app_assoc; [|reflexivity].
    destruct rd; reflexivity.
Qed.

(** [forward] is [encode] followed by [decode] with its defaults. *)
Lemma forward_unfold x rd w :
  forward self x rd w =
  match encode self x true w with
  | (Some o, w1) =>
      match decode self (tensor_of o) true true w1 with
      | (Some o', w2) =>
          (Some (if rd then DecoderOutput (tensor_of o')
                 else Tuple1 (tensor_of o')), w2)
      | (None, w2) => (None, w2)
      end
  | (None, w1) => (None, w1)
  end.
Proof.
  unfold forward, bind at 1.
  rewrite encode_unfold.
  destruct (run_layer (InBlock, []) (in_block self) x (inst w)) as [[h|] s1];
    [|reflexivity].
  destruct (run_layer (DownBlocks, []) (down_blocks self) h s1) as [[h'|] s2];
    [|reflexivity].
  unfold bind, lift. simpl get_latents. cbv iota. simpl tensor_of.
  rewrite decode_unfold.
  destruct (decode_described self (encode_scale self h') (negb true) true
              (logged [InBlock; DownBlocks] s2 w)) as [[o'|] w2] eqn:E;
    [|reflexivity].
  unfold decode_described in E. simpl in E.
  destruct (decode_cascade self (mul (encode_scale self h')
                                     (scale_factor (config self))) s2)
    as [[d|] s3]; simpl in E; [|discriminate].
  injection E as <- <-. simpl. unfold ret. destruct rd; reflexivity.
Qed.

(** *** What the methods may change *)

Lemma decode_cascade_preserved q s :
  preserved s (snd (decode_cascade self q s)).
Proof.
  unfold decode_cascade.
  pose proof (run_layer_preserved (up_blocks self) (UpBlocks, []) q s) as H1.
  destruct (run_layer (UpBlocks, []) (up_blocks self) q s) as [[x|] s1];
    simpl in *; [|exact H1].
  eapply preserved_trans; [exact H1 | apply run_layer_preserved].
Qed.

Lemma encode_preserved x rd w :
  preserved (inst w) (inst (snd (encode self x rd w))).
Proof.
  rewrite encode_unfold.
  pose proof (run_layer_preserved (in_block self) (InBlock, []) x (inst w))
    as H1.
  destruct (run_layer (InBlock, []) (in_block self) x (inst w)) as [[h|] s1];
    simpl in *; [|exact H1].
  pose proof (run_layer_preserved (down_blocks self) (DownBlocks, []) h s1)
    as H2.
  destruct (run_layer (DownBlocks, []) (down_blocks self) h s1) as [[h'|] s2];
    simpl in *; eapply preserved_trans; eassumption.
Qed.

Lemma decode_preserved h fnq rd w :
  preserved (inst w) (inst (snd (decode self h fnq rd w))).
Proof.
  rewrite decode_unfold. unfold decode_described.
  destruct (negb fnq).
  - destruct (vq_forward _ _ _) as [[[q l] i]|]; [|apply preserved_refl].
    pose proof (decode_cascade_preserved q (inst w)) as H.
    destruct (decode_cascade self q (inst w)); exact H.
  - pose proof (decode_cascade_preserved
                  (mul h (scale_factor (config self))) (inst w)) as H.
    destruct (decode_cascade self _ (inst w)); exact H.
Qed.

Lemma forward_preserved x rd w :
  preserved (inst w) (inst (snd (forward self x rd w))).
Proof.
  rewrite forward_unfold.
  pose proof (encode_preserved x true w) as H1.
  destruct (encode self x true w) as [[o|] w1]; simpl in *; [|exact H1].
  pose proof (decode_preserved (tensor_of o) true true w1) as H2.
  destruct (decode self (tensor_of o) true true w1) as [[o'|] w2];
    simpl in *; eapply preserved_trans; eassumption.
Qed.

(** *** What the results depend on *)

Lemma decode_cascade_same q s1 s2 :
  same_instance s1 s2 ->
  fst (decode_cascade self q s1) = fst (decode_cascade self q s2).
Proof.
  intros H. unfold decode_cascade.
  destruct (run_layer_same (up_blocks self) (UpBlocks, []) q H) as [Hf Hs].
  destruct (run_layer (UpBlocks, []) (up_blocks self) q s1) as [[x1|] s1'];
    destruct (run_layer (UpBlocks, []) (up_blocks self) q s2) as [[x2|] s2'];
    simpl in *; try congruence.
  injection Hf as ->.
  apply (run_layer_same (out_block self) (OutBlock, []) x2 Hs).
Qed.

Lemma encode_same x rd w1 w2 :
  same_instance (inst w1) (inst w2) ->
  fst (encode self x rd w1) = fst (encode self x rd w2).
Proof.
  intros H. rewrite !encode_unfold.
  destruct (run_layer_same (in_block self) (InBlock, []) x H) as [Hf Hs].
  destruct (run_layer (InBlock, []) (in_block self) x (inst w1))
    as [[h1|] s1];
    destruct (run_layer (InBlock, []) (in_block self) x (inst w2))
      as [[h2|] s2]; simpl in *; try congruence.
  injection Hf as ->.
  destruct (run_layer_same (down_blocks self) (DownBlocks, []) h2 Hs)
    as [Hf' _].
  destruct (run_layer (DownBlocks, []) (down_blocks self) h2 s1)
    as [[h1'|] s1'];
    destruct (run_layer (DownBlocks, []) (down_blocks self) h2 s2)
      as [[h2'|] s2']; simpl in *; try congruence.
  now injection Hf' as ->.
Qed.

Lemma decode_same h fnq rd w1 w2 :
  same_instance (inst w1) (inst w2) ->
  fst (decode self h fnq rd w1) = fst (decode self h fnq rd w2).
Proof.
  intros H. rewrite !decode_unfold. unfold decode_described.
  pose proof H as (_ & P & _). rewrite <- P.
  destruct (negb fnq).
  - destruct (vq_forward _ _ _) as [[[q l] i]|]; [|reflexivity].
    pose proof (decode_cascade_same q H) as Hc.
    destruct (decode_cascade self q (inst w1));
      destruct (decode_cascade self q (inst w2)); simpl in *. now rewrite Hc.
  - pose proof (decode_cascade_same (mul h (scale_factor (config self))) H)
      as Hc.
    destruct (decode_cascade self _ (inst w1));
      destruct (decode_cascade self _ (inst w2)); simpl in *. now rewrite Hc.
Qed.

Lemma forward_same x rd w1 w2 :
  same_instance (inst w1) (inst w2) ->
  fst (forward self x rd w1) = fst (forward self x rd w2).
Proof.
  intros H. rewrite !forward_unfold.
  pose proof (encode_same x true _ _ H) as He.
  pose proof (encode_preserved x true w1) as Hp1.
  pose proof (encode_preserved x true w2) as Hp2.
  destruct (encode self x true w1) as [[o1|] w1'];
    destruct (encode self x true w2) as [[o2|] w2'];
    simpl in *; try congruence.
  injection He as ->.
  assert (Hs : same_instance (inst w1') (inst w2')).
  { eapply same_instance_trans;
      [apply same_instance_sym, preserved_same_instance, Hp1|].
    eapply same_instance_trans; [exact H|].
    apply preserved_same_instance, Hp2. }
  pose proof (decode_same (tensor_of o2) true true _ _ Hs) as Hd.
  destruct (decode self (tensor_of o2) true true w1') as [[d1|] ?];
    destruct (decode self (tensor_of o2) true true w2') as [[d2|] ?];
    simpl in *; try congruence.
  now injection Hd as ->.
Qed.

End Methods.

(** ** Claims about the methods, for any tensors *)

(** An instance the constructor returns is [built cfg], and there is a
    level. *)
Lemma init_inv (float : Type) (cfg : Config float)
      (self : VQModelPaella float) :
  init cfg = Some self -> 0 < levels cfg /\ self = built cfg.
Proof.
  intros H. pose proof (init_constructible _ H) as Hc.
  rewrite (init_built _ Hc) in H. injection H as <-.
  apply constructible_iff in Hc. now split.
Qed.

Section MethodClaims.

Context {S : Scaling} {B : Backend S}.

Lemma no_batch_norm_Sequential ls :
  no_batch_norm (Sequential ls) = forallb no_batch_norm ls.
Proof. simpl. induction ls as [|l ls IH]; simpl; [|rewrite IH]; reflexivity. Qed.

Lemma forallb_flat_map {A C : Type} (p : C -> bool) (f : A -> list C) xs :
  (forall x, forallb p (f x) = true) -> forallb p (flat_map f xs) = true.
Proof.
  intros H. induction xs as [|x xs IH]; simpl; [reflexivity|].
  now rewrite forallb_app, H, IH.
Qed.

Lemma forallb_repeat {C : Type} (p : C -> bool) c k :
  p c = true -> forallb p (repeat c k) = true.
Proof. intros H. induction k; simpl; [|rewrite H]; auto. Qed.

(** The decoder holds no [BatchNorm2d]. *)
Lemma up_blocks_no_batch_norm (cfg : Config scalar) :
  no_batch_norm (up_blocks (built cfg)) = true
  /\ no_batch_norm (out_block (built cfg)) = true.
Proof.
  split; [|reflexivity].
  unfold built, up_blocks. rewrite no_batch_norm_Sequential, forallb_app.
  apply andb_true_iff. split; [reflexivity|].
  apply forallb_flat_map. intros i. unfold up_layers.
  rewrite forallb_app, forallb_repeat by reflexivity.
  destruct (i <? levels cfg - 1); reflexivity.
Qed.

Lemma decode_cascade_pure (cfg : Config scalar) q s :
  snd (decode_cascade (built cfg) q s) = s.
Proof.
  destruct (up_blocks_no_batch_norm cfg) as [Hu Ho].
  unfold decode_cascade.
  pose proof (run_layer_no_batch_norm _ Hu (UpBlocks, []) q s) as H1.
  destruct (run_layer (UpBlocks, []) (up_blocks (built cfg)) q s)
    as [[x|] s1]; simpl in H1; subst s1; [|reflexivity].
  apply (run_layer_no_batch_norm (out_block (built cfg)) Ho).
Qed.

Lemma decode_pure (cfg : Config scalar) h fnq rd w :
  inst (snd (decode (built cfg) h fnq rd w)) = inst w.
Proof.
  rewrite decode_unfold. unfold decode_described.
  destruct (negb fnq).
  - destruct (vq_forward _ _ _) as [[[q l] i]|]; [|reflexivity].
    pose proof (decode_cascade_pure cfg q (inst w)) as H.
    destruct (decode_cascade (built cfg) q (inst w)); exact H.
  - pose proof (decode_cascade_pure cfg
                  (mul h (scale_factor cfg)) (inst w)) as H.
    simpl config.
    destruct (decode_cascade (built cfg) _ (inst w)); exact H.
Qed.

Lemma input_stage_run (cfg : Config scalar) x s :
  run_layer (InBlock, []) (in_block (built cfg)) x s =
  (input_stage (built cfg) x s, s).
Proof.
  unfold input_stage, built. simpl. unfold child. simpl.
  unfold c_at. rewrite Z.sub_0_r.
  destruct (prim_forward (parameters s) (InBlock, [0%nat])
              (PixelUnshuffle (up_down_scale_factor cfg)) x) as [t|];
    simpl; [|reflexivity].
  destruct (prim_forward (parameters s) (InBlock, [1%nat]) _ t); reflexivity.
Qed.

Lemma encode_rd (self : VQModelPaella scalar) x w :
  tuple_of_field get_latents (fst (encode self x false w))
                 (fst (encode self x true w))
  /\ snd (encode self x false w) = snd (encode self x true w).
Proof.
  rewrite !encode_unfold.
  destruct (run_layer (InBlock, []) (in_block self) x (inst w)) as [[h|] s1];
    [|now split].
  destruct (run_layer (DownBlocks, []) (down_blocks self) h s1) as [[h'|] s2];
    now split.
Qed.

Lemma decode_rd (self : VQModelPaella scalar) h fnq w :
  tuple_of_field get_sample (fst (decode self h fnq false w))
                 (fst (decode self h fnq true w))
  /\ snd (decode self h fnq false w) = snd (decode self h fnq true w).
Proof.
  rewrite !decode_unfold. unfold decode_described.
  destruct (negb fnq).
  - destruct (vq_forward _ _ _) as [[[q l] i]|]; [|now split].
    destruct (decode_cascade self q (inst w)) as [[d|] s']; now split.
  - destruct (decode_cascade self _ (inst w)) as [[d|] s']; now split.
Qed.

Lemma forward_rd (self : VQModelPaella scalar) x w :
  tuple_of_field get_sample (fst (forward self x false w))
                 (fst (forward self x true w))
  /\ snd (forward self x false w) = snd (forward self x true w).
Proof.
  rewrite !forward_unfold.
  destruct (encode self x true w) as [[o|] w1]; [|now split].
  destruct (decode self (tensor_of o) true true w1) as [[o'|] w2]; now split.
Qed.

(** The tensor [encode] returns does not depend on [return_dict]. *)
Lemma encode_tensor (self : VQModelPaella scalar) x rd w :
  option_map tensor_of (fst (encode self x rd w))
  = option_map tensor_of (fst (encode self x true w))
  /\ snd (encode self x rd w) = snd (encode self x true w).
Proof.
  rewrite !encode_unfold.
  destruct (run_layer (InBlock, []) (in_block self) x (inst w)) as [[h|] s1];
    [|now split].
  destruct (run_layer (DownBlocks, []) (down_blocks self) h s1) as [[h'|] s2];
    destruct rd; now split.
Qed.

Lemma decode_tensor (self : VQModelPaella scalar) h fnq rd w :
  option_map tensor_of (fst (decode self h fnq rd w))
  = option_map tensor_of (fst (decode self h fnq true w))
  /\ snd (decode self h fnq rd w) = snd (decode self h fnq true w).
Proof.
  rewrite !decode_unfold. unfold decode_described.
  destruct (negb fnq).
  - destruct (vq_forward _ _ _) as [[[q l] i]|]; [|now split].
    destruct (decode_cascade self q (inst w)) as [[d|] s'];
      destruct rd; now split.
  - destruct (decode_cascade self _ (inst w)) as [[d|] s'];
      destruct rd; now split.
Qed.

(** [forward] against [encode] then [decode], from the same state. *)
Lemma forward_composed (self : VQModelPaella scalar) x rd rd_enc rd_dec w :
  option_map tensor_of (fst (forward self x rd w))
  = option_map tensor_of (fst (decode_encode self x rd_enc rd_dec w))
  /\ snd (forward self x rd w) = snd (decode_encode self x rd_enc rd_dec w).
Proof.
  unfold decode_encode, bind. rewrite forward_unfold.
  destruct (encode_tensor self x rd_enc w) as [Ht Hs].
  destruct (encode self x rd_enc w) as [[o1|] w1];
    destruct (encode self x true w) as [[o|] w0];
    simpl in Ht, Hs; try discriminate; subst w1; [|now split].
  injection Ht as Ht. rewrite Ht.
  destruct (decode_tensor self (tensor_of o) true rd_dec w0) as [Ht' Hs'].
  destruct (decode self (tensor_of o) true rd_dec w0) as [[d1|] w1];
    destruct (decode self (tensor_of o) true true w0) as [[d|] w2];
    simpl in Ht', Hs'; try discriminate; subst w1; [|now split].
  injection Ht' as Ht'. simpl. rewrite Ht'. destruct rd; now split.
Qed.

(** C2: [forward(x)] returns the tensor of [decode(encode(x))] with
    quantization disabled (the default of [decode]), whatever
    [return_dict] is passed to any of the three calls: from the same
    state of the instance the two also leave the same state, and
    [encode] then [decode] called right after [forward] return the
    tensor [forward] returned. *)
Theorem forward_is_decode_of_encode
        (self : VQModelPaella scalar) (x : tensor)
        (rd rd_enc rd_dec : bool) (w : world) :
  (option_map tensor_of (fst (forward self x rd w))
   = option_map tensor_of (fst (decode_encode self x rd_enc rd_dec w))
   /\ snd (forward self x rd w)
      = snd (decode_encode self x rd_enc rd_dec w))
  /\ option_map tensor_of
       (fst (decode_encode self x rd_enc rd_dec (snd (forward self x rd w))))
     = option_map tensor_of (fst (forward self x rd w)).
Proof.
  split; [apply forward_composed|].
  destruct (forward_composed self x rd rd_enc rd_dec
              (snd (forward self x rd w))) as [<- _].
  f_equal. apply forward_same.
  apply same_instance_sym, preserved_same_instance, forward_preserved.
Qed.

(** C6: on an instance the constructor built, [encode] applies the input
    stage (pixel unshuffle, then the 1x1 projection), then the
    downsampling cascade, divides the result by the configured scale
    factor and returns it as the latent; the only sub-modules it invokes
    are the input stage and the cascade, never the vector quantizer. *)
Theorem encode_as_described
        (cfg : Config scalar) (self : VQModelPaella scalar)
        (x : tensor) (rd : bool) (w : world) :
  init cfg = Some self ->
  encode self x rd w = encode_described self x rd w
  /\ exists cs, calls (snd (encode self x rd w)) = calls w ++ cs
                /\ ~ In VQuantizer cs.
Proof.
  intros Hi. apply init_inv in Hi. destruct Hi as [_ ->].
  assert (E : encode (built cfg) x rd w = encode_described (built cfg) x rd w).
  { rewrite encode_unfold. unfold encode_described, downsampling_cascade.
    rewrite input_stage_run.
    destruct (input_stage (built cfg) x (inst w)) as [h|]; [|reflexivity].
    destruct (run_layer (DownBlocks, []) (down_blocks (built cfg)) h (inst w))
      as [[h'|] s2]; [|reflexivity].
    destruct rd; reflexivity. }
  split; [exact E|]. rewrite E. unfold encode_described.
  destruct (input_stage (built cfg) x (inst w)) as [h|].
  - destruct (downsampling_cascade (built cfg) h (inst w)) as [[h'|] s2];
      exists [InBlock; DownBlocks]; (split; [reflexivity|]);
      simpl; intros [H|[H|[]]]; discriminate.
  - exists [InBlock]. split; [reflexivity|].
    simpl; intros [H|[]]; discriminate.
Qed.

(** C7: when quantization is requested ([force_not_quantize=False]),
    [decode] multiplies [h] by the scale factor, passes the product to the
    vector quantizer, keeps the quantized tensor only and feeds it to the
    decode cascade; otherwise (the default) it feeds [h] times the scale
    factor to the decode cascade and the vector quantizer is not
    invoked. *)
Theorem decode_as_described
        (self : VQModelPaella scalar) (h : tensor)
        (force_not_quantize rd : bool) (w : world) :
  decode self h force_not_quantize rd w
  = decode_described self h (negb force_not_quantize) rd w
  /\ (exists cs, calls (snd (decode self h true rd w)) = calls w ++ cs
                 /\ ~ In VQuantizer cs)
  /\ (exists cs, calls (snd (decode self h false rd w))
                 = calls w ++ VQuantizer :: cs
                 /\ ~ In VQuantizer cs).
Proof.
  split; [apply decode_unfold|]. split.
  - rewrite decode_unfold. unfold decode_described, decode_cascade_calls.
    simpl negb. cbv iota.
    destruct (decode_cascade self _ (inst w)) as [r s'].
    destruct (run_layer (UpBlocks, []) (up_blocks self) _ (inst w))
      as [[y|] s1]; eexists; (split; [reflexivity|]); simpl; intuition discriminate.
  - rewrite decode_unfold. unfold decode_described, decode_cascade_calls.
    simpl negb. cbv iota.
    destruct (vq_forward _ _ _) as [[[q l] i]|].
    + destruct (decode_cascade self q (inst w)) as [r s'].
      destruct (run_layer (UpBlocks, []) (up_blocks self) q (inst w))
        as [[y|] s1]; eexists; (split; [reflexivity|]); simpl;
        intuition discriminate.
    + exists []. split; [reflexivity|]. intros [].
Qed.

(** C10: for [encode], [decode] and [forward], a call with
    [return_dict=False] returns a 1-tuple whose element is the tensor the
    same call with [return_dict=True] carries in its output
    ([latents] for [encode], [sample] for the other two), and leaves the
    instance in the same state; both raise together. *)
Theorem return_dict_only_wraps
        (self : VQModelPaella scalar) (x h : tensor)
        (force_not_quantize : bool) (w : world) :
  (tuple_of_field get_latents (fst (encode self x false w))
                  (fst (encode self x true w))
   /\ snd (encode self x false w) = snd (encode self x true w))
  /\ (tuple_of_field get_sample
                     (fst (decode self h force_not_quantize false w))
                     (fst (decode self h force_not_quantize true w))
      /\ snd (decode self h force_not_quantize false w)
         = snd (decode self h force_not_quantize true w))
  /\ (tuple_of_field get_sample (fst (forward self x false w))
                     (fst (forward self x true w))
      /\ snd (forward self x false w) = snd (forward self x true w)).
Proof.
  split; [apply encode_rd|]. split; [apply decode_rd | apply forward_rd].
Qed.

Lemma name_eqb_refl (n : name) : name_eqb n n = true.
Proof.
  unfold name_eqb. destruct n as [[] l]; simpl;
    destruct (list_eq_dec Nat.eq_dec l l); congruence.
Qed.

Lemma run_children_no_batch_norm ls :
  forallb no_batch_norm ls = true ->
  forall n i x s, snd (run_children n i ls x s) = s.
Proof.
  induction ls as [|l ls IH]; intros Hn n i x s; simpl; [reflexivity|].
  simpl in Hn. apply andb_true_iff in Hn. destruct Hn as [Hl Hls].
  pose proof (run_layer_no_batch_norm l Hl (child n i) x s) as H1.
  destruct (run_layer (child n i) l x s) as [[y|] s1]; simpl in H1; subst s1.
  - now apply IH.
  - reflexivity.
Qed.

Lemma down_layers_no_batch_norm (cfg : Config scalar) xs :
  forallb no_batch_norm (flat_map (down_layers cfg) xs) = true.
Proof.
  apply forallb_flat_map. intros i. unfold down_layers.
  destruct (0 <? i); reflexivity.
Qed.

Lemma down_layers_length (cfg : Config scalar) (k : nat) :
  length (flat_map (down_layers cfg) (Py.range (Z.of_nat k + 1)))
  = Z.to_nat (2 * (Z.of_nat k + 1) - 1).
Proof.
  induction k as [|k IH]; [reflexivity|].
  replace (Z.of_nat (Datatypes.S k)) with (Z.of_nat k + 1) by lia.
  rewrite range_succ by lia. rewrite flat_map_app, length_app, IH.
  simpl flat_map. unfold down_layers.
  destruct (Z.ltb_spec 0 (Z.of_nat k + 1)); [|lia]. simpl length. lia.
Qed.

(** In training mode a run of [down_blocks] that returns has counted one
    more batch in its [BatchNorm2d]. *)
Lemma down_blocks_counts_batch (cfg : Config scalar) h s :
  0 < levels cfg ->
  training s = true ->
  fst (run_layer (DownBlocks, []) (down_blocks (built cfg)) h s) <> None ->
  num_batches_tracked
    (buffers (snd (run_layer (DownBlocks, []) (down_blocks (built cfg)) h s))
             (batch_norm_name cfg))
  = num_batches_tracked (buffers s (batch_norm_name cfg)) + 1.
Proof.
  intros HL Ht.
  change (down_blocks (built cfg))
    with (Sequential
            (flat_map (down_layers cfg) (Py.range (levels cfg))
             ++ [Sequential
                   [Prim (Conv2d (c_hidden cfg) (c_latent cfg) 1 1 0 false);
                    BatchNorm2d (c_latent cfg)]])).
  rewrite run_layer_Sequential, run_children_app.
  pose proof (run_children_no_batch_norm _
                (down_layers_no_batch_norm cfg (Py.range (levels cfg)))
                (DownBlocks, []) 0%nat h s) as H1.
  destruct (run_children (DownBlocks, []) 0
              (flat_map (down_layers cfg) (Py.range (levels cfg))) h s)
    as [[y|] s1]; simpl in H1; subst s1; [|intros H; now elim H].
  replace (levels cfg) with (Z.of_nat (Z.to_nat (levels cfg - 1)) + 1) at 1 2
    by lia.
  rewrite down_layers_length.
  replace (2 * (Z.of_nat (Z.to_nat (levels cfg - 1)) + 1) - 1)
    with (2 * levels cfg - 1) by lia.
  unfold batch_norm_name.
  generalize (Z.to_nat (2 * levels cfg - 1)). intros k.
  cbn [run_children run_layer Nat.add]. unfold child. cbn [fst snd app].
  destruct (prim_forward (parameters s) (DownBlocks, [k; 0%nat])
              (Conv2d (c_hidden cfg) (c_latent cfg) 1 1 0 false) y) as [z|];
    [|intros H; now elim H].
  unfold run_batch_norm. rewrite Ht.
  destruct (bn_check_input_dim z); [|intros H; now elim H].
  destruct (batch_norm_train (parameters s) (DownBlocks, [k; 1%nat])
              (c_latent cfg) z) as [v|]; [|intros H; now elim H].
  intros _. cbn [fst snd set_buffers buffers].
  now rewrite name_eqb_refl.
Qed.

(** In training mode a call of [encode] that returns has counted one more
    batch in the [BatchNorm2d] of [down_blocks]. *)
Lemma encode_counts_batch (cfg : Config scalar) x rd w :
  0 < levels cfg ->
  training (inst w) = true ->
  fst (encode (built cfg) x rd w) <> None ->
  num_batches_tracked
    (buffers (inst (snd (encode (built cfg) x rd w))) (batch_norm_name cfg))
  = num_batches_tracked (buffers (inst w) (batch_norm_name cfg)) + 1.
Proof.
  intros HL Ht. rewrite encode_unfold, input_stage_run.
  destruct (input_stage (built cfg) x (inst w)) as [h|];
    [|intros H; now elim H].
  pose proof (down_blocks_counts_batch cfg h (inst w) HL Ht) as Hd.
  destruct (run_layer (DownBlocks, []) (down_blocks (built cfg)) h (inst w))
    as [[h'|] s2]; [|intros H; now elim H].
  intros _. apply Hd. discriminate.
Qed.

(** C9, amended: on an instance the constructor built, at two moments at
    which it has the same mode and parameters (and, in evaluation mode,
    the same buffers), calls with equal inputs return equal results; no
    call changes the mode or the parameters; [decode] changes nothing at
    all, and in evaluation mode neither do [encode] and [forward]; in
    training mode each call of [encode] or [forward] that returns has
    counted one more batch in the [BatchNorm2d] of [down_blocks]. *)
Theorem calls_deterministic
        (cfg : Config scalar) (self : VQModelPaella scalar)
        (x h : tensor) (force_not_quantize rd : bool) (w w' : world) :
  init cfg = Some self ->
  same_instance (inst w) (inst w') ->
  (fst (encode self x rd w') = fst (encode self x rd w)
   /\ fst (decode self h force_not_quantize rd w')
      = fst (decode self h force_not_quantize rd w)
   /\ fst (forward self x rd w') = fst (forward self x rd w))
  /\ (preserved (inst w) (inst (snd (encode self x rd w)))
      /\ preserved (inst w) (inst (snd (forward self x rd w))))
  /\ inst (snd (decode self h force_not_quantize rd w)) = inst w
  /\ (training (inst w) = true ->
      (fst (encode self x rd w) <> None ->
       num_batches_tracked
         (buffers (inst (snd (encode self x rd w))) (batch_norm_name cfg))
       = num_batches_tracked (buffers (inst w) (batch_norm_name cfg)) + 1)
      /\ (fst (forward self x rd w) <> None ->
          num_batches_tracked
            (buffers (inst (snd (forward self x rd w))) (batch_norm_name cfg))
          = num_batches_tracked (buffers (inst w) (batch_norm_name cfg)) + 1)).
Proof.
  intros Hi Hs. apply init_inv in Hi. destruct Hi as [HL ->].
  apply same_instance_sym in Hs.
  split; [|split; [|split]].
  - split; [now apply encode_same|].
    split; [now apply decode_same | now apply forward_same].
  - split; [apply encode_preserved | apply forward_preserved].
  - apply decode_pure.
  - intros Ht. split; [now apply encode_counts_batch|].
    rewrite forward_unfold.
    pose proof (encode_counts_batch cfg x true w HL Ht) as He.
    destruct (encode (built cfg) x true w) as [[o|] w1];
      [|intros H; now elim H].
    pose proof (decode_pure cfg (tensor_of o) true true w1) as Hd.
    destruct (decode (built cfg) (tensor_of o) true true w1) as [[o'|] w2];
      [|intros H; now elim H].
    intros _. cbn [fst snd] in *. rewrite Hd. apply He. discriminate.
Qed.

End MethodClaims.

(** ** Shapes through the layers *)

Section ShapeRuns.

Local Abbreviation run := (@run_layer Shape.scaling Shape.backend).
Local Abbreviation state := (@instance_state Shape.scaling Shape.backend).
Local Abbreviation World := (@world Shape.scaling Shape.backend).

Lemma layer_shape_Sequential tr ls x :
  layer_shape tr (Sequential ls) x = layers_shape tr ls x.
Proof.
  simpl. revert x. induction ls as [|l ls IH]; intros x; simpl; [reflexivity|].
  destruct (layer_shape tr l x); simpl; [apply IH | reflexivity].
Qed.

Lemma layers_shape_app tr ls1 ls2 x :
  layers_shape tr (ls1 ++ ls2) x =
  obind (layers_shape tr ls1 x) (layers_shape tr ls2).
Proof.
  revert x. induction ls1 as [|l ls1 IH]; intros x; simpl; [reflexivity|].
  destruct (layer_shape tr l x); simpl; [apply IH | reflexivity].
Qed.

(** On shapes, a call returns what [layer_shape] gives for the mode. *)
Lemma shape_run_layer l :
  forall n x (s : state), fst (run n l x s) = layer_shape (training s) l x.
Proof.
  induction l as [p | c | ls IH] using layer_nested_ind; intros n x s.
  - reflexivity.
  - simpl. unfold run_batch_norm. simpl.
    destruct (training s); [|reflexivity].
    destruct (Shape.bn_train_shape c x); reflexivity.
  - rewrite run_layer_Sequential, layer_shape_Sequential.
    generalize 0%nat. revert x s.
    induction IH as [|l ls Hl _ IHls]; intros x s i; simpl; [reflexivity|].
    specialize (Hl (child n i) x s).
    pose proof (run_layer_preserved l (child n i) x s) as (Ht & _).
    destruct (run (child n i) l x s) as [[y|] s']; simpl in *;
      rewrite <- Hl; simpl; [|reflexivity].
    rewrite IHls. now rewrite Ht.
Qed.

Lemma shape_encode (self : VQModelPaella (@scalar Shape.scaling)) x rd (w : World) :
  option_map tensor_of (fst (encode (S:=Shape.scaling) self x rd w)) =
  obind (layer_shape (training (inst w)) (in_block self) x)
        (layer_shape (training (inst w)) (down_blocks self)).
Proof.
  rewrite encode_unfold.
  pose proof (shape_run_layer (in_block self) (InBlock, []) x (inst w)) as H1.
  pose proof (run_layer_preserved (in_block self) (InBlock, []) x (inst w))
    as (Ht & _).
  destruct (run (InBlock, []) (in_block self) x (inst w)) as [[h|] s1];
    cbn [fst snd] in H1, Ht; rewrite <- H1; cbn [fst snd obind option_map]; [|reflexivity].
  pose proof (shape_run_layer (down_blocks self) (DownBlocks, []) h s1) as H2.
  rewrite Ht in H2.
  destruct (run (DownBlocks, []) (down_blocks self) h s1) as [[h'|] s2];
    cbn [fst snd] in H2; rewrite <- H2; [|reflexivity].
  destruct rd; reflexivity.
Qed.

Lemma shape_decode_cascade (self : VQModelPaella (@scalar Shape.scaling))
      q (s : state) :
  fst (decode_cascade self q s) =
  obind (layer_shape (training s) (up_blocks self) q)
        (layer_shape (training s) (out_block self)).
Proof.
  unfold decode_cascade.
  pose proof (shape_run_layer (up_blocks self) (UpBlocks, []) q s) as H1.
  pose proof (run_layer_preserved (up_blocks self) (UpBlocks, []) q s)
    as (Ht & _).
  destruct (run (UpBlocks, []) (up_blocks self) q s) as [[x|] s1];
    cbn [fst snd] in H1, Ht; rewrite <- H1; cbn [fst snd obind];
    [|reflexivity].
  rewrite <- Ht. apply shape_run_layer.
Qed.

Lemma shape_decode (self : VQModelPaella (@scalar Shape.scaling))
      h fnq rd (w : World) :
  option_map tensor_of (fst (decode (S:=Shape.scaling) self h fnq rd w)) =
  obind (layer_shape (training (inst w)) (up_blocks self) h)
        (layer_shape (training (inst w)) (out_block self)).
Proof.
  rewrite decode_unfold. unfold decode_described.
  rewrite <- shape_decode_cascade.
  destruct (negb fnq);
  cbn [vq_forward Shape.backend mul Shape.scaling];
  unfold Shape.vector_quantizer_shape;
    destruct (decode_cascade self h (inst w)) as [[d|] s'];
    cbn [fst option_map]; try reflexivity; destruct rd; reflexivity.
Qed.

End ShapeRuns.

(** ** Shapes through the cascades *)

Lemma pow2_pos (k : Z) : 0 <= k -> 0 < 2 ^ k.
Proof. intros. apply Z.pow_pos_nonneg; lia. Qed.

Lemma divide_pow2_succ (k h : Z) : 0 <= k -> (2 ^ (k + 1) | h) -> (2 ^ k | h).
Proof.
  intros Hk H. eapply Z.divide_trans; [|exact H].
  exists 2. rewrite Z.pow_add_r, Z.pow_1_r by lia. ring.
Qed.

(** A 4x4 convolution of stride 2 and padding 1 halves an even size. *)
Lemma conv_halves (h k : Z) :
  0 <= k -> 0 < h -> (2 ^ (k + 1) | h) ->
  4 <= h / 2 ^ k + 2 * 1
  /\ Shape.conv_out (h / 2 ^ k) 4 2 1 = h / 2 ^ (k + 1).
Proof.
  intros Hk Hh [q Hq]. pose proof (pow2_pos Hk) as Hp.
  rewrite Z.pow_add_r, Z.pow_1_r in * by lia. subst h.
  replace (q * (2 ^ k * 2)) with ((q * 2) * 2 ^ k) by ring.
  rewrite Z.div_mul by lia.
  replace ((q * 2) * 2 ^ k) with (q * (2 ^ k * 2)) by ring.
  rewrite Z.div_mul by lia.
  assert (0 < q) by nia.
  split; [lia|]. unfold Shape.conv_out.
  replace (q * 2 + 2 * 1 - 4) with ((q - 1) * 2) by ring.
  rewrite Z.div_mul by lia. lia.
Qed.

(** A 4x4 transposed convolution of stride 2 and padding 1 doubles. *)
Lemma conv_transpose_doubles (h : Z) :
  Shape.conv_transpose_out h 4 2 1 = h * 2.
Proof. unfold Shape.conv_transpose_out. lia. Qed.

(** A 1x1 convolution keeps a size. *)
Lemma conv_1x1_keeps (h : Z) : Shape.conv_out h 1 1 0 = h.
Proof. unfold Shape.conv_out. rewrite Z.div_1_r. lia. Qed.

Section CascadeShapes.

Variable float : Type.
Variable cfg : Config float.
Variable tr : bool.
Variable n : Z.

Lemma residual_blocks_shape c e k x :
  channels x = c ->
  layers_shape tr (repeat (Prim (MixingResidualBlock c e)) k) x = Some x.
Proof.
  intros Hc. induction k as [|k IH]; simpl; [reflexivity|].
  unfold Shape.mixing_residual_block_shape. rewrite Hc, Z.eqb_refl. simpl.
  exact IH.
Qed.

(** After the first [k+1] levels of the encoder: width [c_at k], sizes
    divided by [2^k]. *)
Lemma down_levels_shape (k : nat) (h w : Z) :
  Z.of_nat k < levels cfg ->
  0 < h -> 0 < w ->
  (2 ^ Z.of_nat k | h) -> (2 ^ Z.of_nat k | w) ->
  layers_shape tr (flat_map (down_layers cfg) (Py.range (Z.of_nat k + 1)))
               (sh n (c_at cfg 0) h w)
  = Some (sh n (c_at cfg (Z.of_nat k))
             (h / 2 ^ Z.of_nat k) (w / 2 ^ Z.of_nat k)).
Proof.
  intros Hk Hh Hw. induction k as [|k IH]; intros Dh Dw.
  - simpl. unfold Shape.mixing_residual_block_shape. simpl.
    rewrite Z.eqb_refl. simpl. now rewrite !Z.div_1_r.
  - replace (Z.of_nat (Datatypes.S k)) with (Z.of_nat k + 1) in * by lia.
    rewrite range_succ by lia.
    rewrite flat_map_app, layers_shape_app.
    rewrite IH; [|lia|apply divide_pow2_succ; [lia|assumption]
                 |apply divide_pow2_succ; [lia|assumption]].
    simpl obind. simpl flat_map. unfold down_layers.
    destruct (Z.ltb_spec 0 (Z.of_nat k + 1)) as [_|]; [|lia].
    replace (Z.of_nat k + 1 - 1) with (Z.of_nat k) by lia.
    destruct (conv_halves (k:=Z.of_nat k) ltac:(lia) Hh Dh) as [Gh Eh].
    destruct (conv_halves (k:=Z.of_nat k) ltac:(lia) Hw Dw) as [Gw Ew].
    cbn [app layers_shape layer_shape Shape.prim_shape
       Shape.mixing_residual_block_shape sh
         channels height width batch].
    rewrite Z.eqb_refl.
    destruct (Z.leb_spec 4 (h / 2 ^ Z.of_nat k + 2 * 1)); [|lia].
    destruct (Z.leb_spec 4 (w / 2 ^ Z.of_nat k + 2 * 1)); [|lia].
    cbn [andb Z.ltb Z.compare obind channels layers_shape layer_shape
         Shape.prim_shape Shape.mixing_residual_block_shape].
    unfold Shape.mixing_residual_block_shape. cbn [channels].
    rewrite Z.eqb_refl. cbn [obind].
    now rewrite Eh, Ew.
Qed.

(** After the first [k] levels of the decoder, for [k < levels]: width
    [c_at (levels-1-k)], sizes multiplied by [2^k]. *)
Lemma up_levels_shape (k : nat) (h w : Z) :
  Z.of_nat k <= levels cfg - 1 ->
  layers_shape tr (flat_map (up_layers cfg) (Py.range (Z.of_nat k)))
               (sh n (c_at cfg (levels cfg - 1)) h w)
  = Some (sh n (c_at cfg (levels cfg - 1 - Z.of_nat k))
             (h * 2 ^ Z.of_nat k) (w * 2 ^ Z.of_nat k)).
Proof.
  induction k as [|k IH]; intros Hk.
  - simpl. now rewrite Z.sub_0_r, !Z.mul_1_r.
  - replace (Z.of_nat (Datatypes.S k)) with (Z.of_nat k + 1) in * by lia.
    rewrite range_succ by lia.
    rewrite flat_map_app, layers_shape_app.
    rewrite IH by lia. simpl obind. simpl flat_map. rewrite app_nil_r.
    unfold up_layers. cbv zeta.
    destruct (Z.ltb_spec (Z.of_nat k) (levels cfg - 1)) as [_|]; [|lia].
    rewrite layers_shape_app, residual_blocks_shape by reflexivity.
    cbn [obind layers_shape layer_shape Shape.prim_shape
       Shape.mixing_residual_block_shape sh
         channels height width batch].
    rewrite Z.eqb_refl. cbn [obind].
    rewrite !conv_transpose_doubles.
    replace (levels cfg - 2 - Z.of_nat k)
      with (levels cfg - 1 - (Z.of_nat k + 1)) by lia.
    rewrite !Z.pow_add_r, !Z.pow_1_r by lia.
    now rewrite !Z.mul_assoc.
Qed.

(** The encoder: input stage and downsampling cascade. *)
Lemma encoder_shape (h w : Z) :
  0 < levels cfg -> 0 < up_down_scale_factor cfg ->
  0 < h -> 0 < w ->
  (total_stride cfg | h) -> (total_stride cfg | w) ->
  (tr = true -> n * (h / total_stride cfg) * (w / total_stride cfg) <> 1) ->
  obind (layer_shape tr (in_block (built cfg)) (sh n (in_channels cfg) h w))
        (layer_shape tr (down_blocks (built cfg)))
  = Some (sh n (c_latent cfg)
             (h / total_stride cfg) (w / total_stride cfg)).
Proof.
  intros HL Hs Hh Hw Dh Dw Hbn.
  set (r := up_down_scale_factor cfg) in *.
  set (k := Z.to_nat (levels cfg - 1)).
  assert (Ek : Z.of_nat k = levels cfg - 1) by (unfold k; lia).
  assert (Hp : 0 < 2 ^ (levels cfg - 1)) by (apply pow2_pos; lia).
  assert (Hdiv : forall v, 0 < v -> (total_stride cfg | v) ->
            v mod r = 0 /\ 0 < v / r
            /\ (2 ^ Z.of_nat k | v / r)
            /\ v / r / 2 ^ Z.of_nat k = v / total_stride cfg
            /\ 0 < v / total_stride cfg).
  { intros v Hv [q Hq]. unfold total_stride in *. fold r in Hq |- *.
    rewrite Ek.
    assert (Hq0 : 0 < q) by nia.
    assert (E1 : v / r = q * 2 ^ (levels cfg - 1)).
    { subst v. replace (q * (r * 2 ^ (levels cfg - 1)))
        with (q * 2 ^ (levels cfg - 1) * r) by ring.
      apply Z.div_mul. lia. }
    split.
    { subst v. replace (q * (r * 2 ^ (levels cfg - 1)))
        with (q * 2 ^ (levels cfg - 1) * r) by ring.
      apply Z.mod_mul. lia. }
    split; [rewrite E1; nia|].
    split; [rewrite E1; now exists q|].
    rewrite Z.div_div by lia.
    split; [reflexivity|].
    subst v. rewrite Z.div_mul by nia. exact Hq0. }
  destruct (Hdiv h Hh Dh) as (Mh & Ph & D2h & Eh & Lh).
  destruct (Hdiv w Hw Dw) as (Mw & Pw & D2w & Ew & Lw).
  (* input stage *)
  remember (layer_shape tr (down_blocks (built cfg))) as down eqn:Edown.
  unfold built, in_block. fold r.
  rewrite layer_shape_Sequential.
  cbn [layers_shape layer_shape Shape.prim_shape
       Shape.mixing_residual_block_shape sh
       channels height width batch].
  destruct (Z.ltb_spec 0 r) as [_|]; [|lia].
  rewrite Mh, Mw. cbn [Z.eqb andb obind channels height width batch].
  rewrite Z.pow_2_r, Z.eqb_refl.
  destruct (Z.leb_spec 1 (h / r + 2 * 0)); [|lia].
  destruct (Z.leb_spec 1 (w / r + 2 * 0)); [|lia].
  cbn [andb Z.ltb Z.compare obind]. rewrite !conv_1x1_keeps.
  (* downsampling cascade *)
  subst down. unfold built, down_blocks.
  rewrite layer_shape_Sequential, layers_shape_app.
  replace (Py.range (levels cfg)) with (Py.range (Z.of_nat k + 1))
    by (f_equal; lia).
  pose proof (@down_levels_shape k (h / r) (w / r) ltac:(lia) Ph Pw D2h D2w)
    as Hd.
  unfold sh in Hd. rewrite Hd. clear Hd.
  rewrite Eh, Ew, Ek, c_at_last.
  cbn [obind layers_shape layer_shape Shape.prim_shape
       Shape.mixing_residual_block_shape
       channels height width batch].
  rewrite Z.eqb_refl.
  destruct (Z.leb_spec 1 (h / total_stride cfg + 2 * 0)); [|lia].
  destruct (Z.leb_spec 1 (w / total_stride cfg + 2 * 0)); [|lia].
  cbn [andb Z.ltb Z.compare obind]. rewrite !conv_1x1_keeps.
  unfold Shape.bn_train_shape, Shape.bn_eval_shape.
  cbn [channels height width batch]. rewrite Z.eqb_refl.
  destruct tr; [|reflexivity].
  destruct (Z.eqb_spec (n * (h / total_stride cfg) * (w / total_stride cfg)) 1)
    as [E|_]; [now elim (Hbn eq_refl)|reflexivity].
Qed.

(** The decoder: decode cascade and output stage. *)
Lemma decoder_shape (h w : Z) :
  0 < levels cfg -> 0 < up_down_scale_factor cfg ->
  0 < h -> 0 < w ->
  obind (layer_shape tr (up_blocks (built cfg)) (sh n (c_latent cfg) h w))
        (layer_shape tr (out_block (built cfg)))
  = Some (sh n (out_channels cfg)
             (h * total_stride cfg) (w * total_stride cfg)).
Proof.
  intros HL Hs Hh Hw.
  set (r := up_down_scale_factor cfg) in *.
  set (k := Z.to_nat (levels cfg - 1)).
  assert (Ek : Z.of_nat k = levels cfg - 1) by (unfold k; lia).
  remember (layer_shape tr (out_block (built cfg))) as out eqn:Eout.
  unfold built, up_blocks. fold r.
  rewrite layer_shape_Sequential.
  cbn [app layers_shape].
  rewrite layer_shape_Sequential.
  cbn [layers_shape layer_shape Shape.prim_shape
       Shape.mixing_residual_block_shape sh
       channels height width batch].
  rewrite Z.eqb_refl.
  destruct (Z.leb_spec 1 (h + 2 * 0)); [|lia].
  destruct (Z.leb_spec 1 (w + 2 * 0)); [|lia].
  cbn [andb Z.ltb Z.compare obind]. rewrite !conv_1x1_keeps.
  (* the levels but the last, then the last *)
  replace (Py.range (levels cfg)) with (Py.range (Z.of_nat k + 1))
    by (f_equal; lia).
  rewrite range_succ by lia.
  rewrite flat_map_app, layers_shape_app.
  rewrite <- c_at_last.
  pose proof (@up_levels_shape k h w ltac:(lia)) as Hu.
  unfold sh in Hu. rewrite Hu. clear Hu.
  cbn [obind flat_map]. rewrite app_nil_r. unfold up_layers. cbv zeta.
  destruct (Z.ltb_spec (Z.of_nat k) (levels cfg - 1)) as [|_]; [lia|].
  rewrite app_nil_r, residual_blocks_shape by reflexivity.
  (* output stage *)
  subst out. unfold built, out_block. fold r.
  rewrite Ek. replace (levels cfg - 1 - (levels cfg - 1)) with 0 by lia.
  cbn [obind]. rewrite layer_shape_Sequential.
  cbn [layers_shape layer_shape Shape.prim_shape
       Shape.mixing_residual_block_shape
       channels height width batch].
  rewrite Z.eqb_refl.
  assert (Hp : 0 < 2 ^ (levels cfg - 1)) by (apply pow2_pos; lia).
  destruct (Z.leb_spec 1 (h * 2 ^ (levels cfg - 1) + 2 * 0)); [|nia].
  destruct (Z.leb_spec 1 (w * 2 ^ (levels cfg - 1) + 2 * 0)); [|nia].
  cbn [andb Z.ltb Z.compare obind]. rewrite !conv_1x1_keeps.
  cbn [channels height width batch].
  destruct (Z.ltb_spec 0 r) as [_|]; [|lia].
  rewrite Z.pow_2_r, Z.mod_mul by nia.
  cbn [Z.eqb andb]. rewrite Z.div_mul by nia.
  cbn [obind]. unfold sh, total_stride. fold r. f_equal. f_equal; ring.
Qed.

End CascadeShapes.

(** ** Claims about shapes *)

Lemma total_stride_pow (float : Type) (cfg : Config float) :
  0 < levels cfg ->
  up_down_scale_factor cfg = 2 \/ levels cfg = 1 ->
  total_stride cfg = up_down_scale_factor cfg ^ levels cfg.
Proof.
  intros HL [E | E]; unfold total_stride; rewrite E.
  - replace 2 with (2 ^ 1) at 1 by reflexivity.
    rewrite <- Z.pow_add_r by lia. f_equal. lia.
  - rewrite Z.pow_1_r. change (2 ^ (1 - 1)) with 1. lia.
Qed.

Lemma cfg_default_valid : valid_config cfg_default.
Proof. constructor; simpl; lia. Qed.

Lemma cfg_scale3_valid : valid_config cfg_scale3.
Proof. constructor; simpl; lia. Qed.

Lemma cfg_out1_valid : valid_config cfg_out1.
Proof. constructor; simpl; lia. Qed.

(** C3, as stated, fails.  With scale 3 and two levels an 18x18 image
    (18 is a multiple of [3^2]) encodes to 3x3, not to [18/3^2 = 2]; and an
    instance in training mode raises on the 4x4 image whose latent would be
    a single value per channel. *)
Lemma encode_shape_not_scale_pow_levels :
  (valid_config cfg_scale3
   /\ init cfg_scale3 = Some (built cfg_scale3)
   /\ (up_down_scale_factor cfg_scale3 ^ levels cfg_scale3 | 18)
   /\ option_map tensor_of
        (fst (encode (S:=Shape.scaling) (built cfg_scale3)
                     (sh 1 3 18 18) true (Shape.fresh false)))
      = Some (sh 1 4 3 3)
   /\ sh 1 4 3 3 <> sh 1 4 (18 / 3 ^ 2) (18 / 3 ^ 2))
  /\ (valid_config cfg_default
      /\ init cfg_default = Some (built cfg_default)
      /\ (up_down_scale_factor cfg_default ^ levels cfg_default | 4)
      /\ fst (encode (S:=Shape.scaling) (built cfg_default)
                     (sh 1 3 4 4) true (Shape.fresh true))
         = None).
Proof.
  split.
  - split; [exact cfg_scale3_valid|]. split; [reflexivity|].
    split; [exists 2; reflexivity|]. split; [reflexivity|].
    vm_compute. discriminate.
  - split; [exact cfg_default_valid|]. split; [reflexivity|].
    split; [exists 1; reflexivity|]. reflexivity.
Qed.

(** C3, amended: on an instance built from a valid configuration, an image
    [(N, in_channels, H, W)] whose sizes are positive multiples of
    [scale * 2^(levels-1)] encodes to
    [(N, c_latent, H / (scale * 2^(levels-1)), W / (scale * 2^(levels-1)))],
    provided that in training mode the latent has more than one value per
    channel.  The factor is [scale^levels] when the scale is 2. *)
Theorem encode_latent_shape
        (cfg : Config (@scalar Shape.scaling))
        (self : VQModelPaella (@scalar Shape.scaling))
        (n h w : Z) (rd : bool) (st : @world Shape.scaling Shape.backend) :
  valid_config cfg ->
  init cfg = Some self ->
  0 < n -> 0 < h -> 0 < w ->
  (total_stride cfg | h) -> (total_stride cfg | w) ->
  (training (inst st) = true ->
   n * (h / total_stride cfg) * (w / total_stride cfg) <> 1) ->
  option_map tensor_of
    (fst (encode (S:=Shape.scaling) self (sh n (in_channels cfg) h w) rd st))
  = Some (sh n (c_latent cfg) (h / total_stride cfg) (w / total_stride cfg))
  /\ (up_down_scale_factor cfg = 2 ->
      total_stride cfg = up_down_scale_factor cfg ^ levels cfg).
Proof.
  intros V Hi Hn Hh Hw Dh Dw Hbn.
  apply init_inv in Hi. destruct Hi as [HL ->].
  split.
  - rewrite shape_encode.
    apply encoder_shape; try assumption. apply (valid_scale V).
  - intros E. apply total_stride_pow; [exact HL | now left].
Qed.

Lemma encode_latent_shape_witness :
  valid_config cfg_default
  /\ init cfg_default = Some (built cfg_default)
  /\ (total_stride cfg_default | 64)
  /\ option_map tensor_of
       (fst (encode (S:=Shape.scaling) (built cfg_default)
                    (sh 1 3 64 64) true (Shape.fresh true)))
     = Some (sh 1 4 16 16).
Proof.
  assert (D : (total_stride cfg_default | 64)) by (exists 16; reflexivity).
  assert (Hbn : training (inst (Shape.fresh true)) = true ->
                1 * (64 / total_stride cfg_default)
                  * (64 / total_stride cfg_default) <> 1)
    by (intros _; vm_compute; discriminate).
  split; [exact cfg_default_valid|]. split; [reflexivity|].
  split; [exact D|].
  exact (proj1 (@encode_latent_shape cfg_default (built cfg_default)
                  1 64 64 true (Shape.fresh true)
                  cfg_default_valid eq_refl
                  ltac:(lia) ltac:(lia) ltac:(lia) D D Hbn)).
Defined.

(** C1, as stated, fails.  With one output channel the result has one
    channel where the image has three; with scale 3 and two levels a 9x9
    image (9 is [3^2]) comes back as 6x6; and an instance in training mode
    raises on the 4x4 image whose latent would be a single value per
    channel. *)
Lemma decode_encode_shape_differs :
  (valid_config cfg_out1
   /\ init cfg_out1 = Some (built cfg_out1)
   /\ (up_down_scale_factor cfg_out1 ^ levels cfg_out1 | 64)
   /\ option_map tensor_of
        (fst (decode_encode (S:=Shape.scaling) (built cfg_out1)
                (sh 1 (in_channels cfg_out1) 64 64) true true
                (Shape.fresh false)))
      = Some (sh 1 1 64 64)
   /\ sh 1 1 64 64 <> sh 1 (in_channels cfg_out1) 64 64)
  /\ (valid_config cfg_scale3
      /\ init cfg_scale3 = Some (built cfg_scale3)
      /\ (up_down_scale_factor cfg_scale3 ^ levels cfg_scale3 | 9)
      /\ option_map tensor_of
           (fst (decode_encode (S:=Shape.scaling) (built cfg_scale3)
                   (sh 1 (in_channels cfg_scale3) 9 9) true true
                   (Shape.fresh false)))
         = Some (sh 1 3 6 6)
      /\ sh 1 3 6 6 <> sh 1 (in_channels cfg_scale3) 9 9)
  /\ (valid_config cfg_default
      /\ init cfg_default = Some (built cfg_default)
      /\ (up_down_scale_factor cfg_default ^ levels cfg_default | 4)
      /\ fst (decode_encode (S:=Shape.scaling) (built cfg_default)
                (sh 1 (in_channels cfg_default) 4 4) true true
                (Shape.fresh true))
         = None).
Proof.
  split; [|split].
  - split; [exact cfg_out1_valid|]. split; [reflexivity|].
    split; [exists 16; reflexivity|]. split; [reflexivity|].
    vm_compute. discriminate.
  - split; [exact cfg_scale3_valid|]. split; [reflexivity|].
    split; [exists 1; reflexivity|]. split; [reflexivity|].
    vm_compute. discriminate.
  - split; [exact cfg_default_valid|]. split; [reflexivity|].
    split; [exists 1; reflexivity|]. reflexivity.
Qed.

(** C1, amended: on an instance built from a valid configuration, for an
    image [(N, in_channels, H, W)] whose sizes are positive multiples of
    [scale * 2^(levels-1)], [decode(encode(x))] with quantization disabled
    returns a tensor of shape [(N, out_channels, H, W)], the shape of [x]
    when [out_channels = in_channels], provided that in training mode the
    latent has more than one value per channel. *)
Theorem decode_encode_shape
        (cfg : Config (@scalar Shape.scaling))
        (self : VQModelPaella (@scalar Shape.scaling))
        (n h w : Z) (rd_enc rd_dec : bool)
        (st : @world Shape.scaling Shape.backend) :
  valid_config cfg ->
  init cfg = Some self ->
  0 < n -> 0 < h -> 0 < w ->
  (total_stride cfg | h) -> (total_stride cfg | w) ->
  (training (inst st) = true ->
   n * (h / total_stride cfg) * (w / total_stride cfg) <> 1) ->
  option_map tensor_of
    (fst (decode_encode (S:=Shape.scaling) self
            (sh n (in_channels cfg) h w) rd_enc rd_dec st))
  = Some (sh n (out_channels cfg) h w).
Proof.
  intros V Hi Hn Hh Hw Dh Dw Hbn.
  apply init_inv in Hi. destruct Hi as [HL ->].
  pose proof (valid_scale V) as Hs.
  unfold decode_encode, bind.
  match goal with
  | |- context [@encode ?S ?B ?m ?x ?rd ?w0] =>
      assert (He : option_map tensor_of (fst (@encode S B m x rd w0))
                   = Some (sh n (c_latent cfg)
                              (h / total_stride cfg) (w / total_stride cfg)))
        by (rewrite shape_encode; now apply encoder_shape);
      pose proof (@encode_preserved S B m x rd w0) as (Ht & _);
      destruct (@encode S B m x rd w0) as [[o|] st1]
  end; cbn [fst snd option_map] in He, Ht; [|discriminate].
  injection He as He. rewrite shape_decode, He, Ht.
  assert (Hts : 0 < total_stride cfg).
  { unfold total_stride. pose proof (@pow2_pos (levels cfg - 1) ltac:(lia)).
    nia. }
  assert (Hq : forall v, 0 < v -> (total_stride cfg | v) ->
            0 < v / total_stride cfg
            /\ v / total_stride cfg * total_stride cfg = v).
  { intros v Hv [q Hq]. subst v. rewrite Z.div_mul by lia. split; nia. }
  destruct (Hq h Hh Dh) as [Ph Eh]. destruct (Hq w Hw Dw) as [Pw Ew].
  rewrite <- Eh at 2. rewrite <- Ew at 2. now apply decoder_shape.
Qed.

Lemma decode_encode_shape_witness :
  valid_config cfg_default
  /\ init cfg_default = Some (built cfg_default)
  /\ (total_stride cfg_default | 64)
  /\ option_map tensor_of
       (fst (decode_encode (S:=Shape.scaling) (built cfg_default)
               (sh 1 3 64 64) true true (Shape.fresh true)))
     = Some (sh 1 3 64 64).
Proof.
  assert (D : (total_stride cfg_default | 64)) by (exists 16; reflexivity).
  assert (Hbn : training (inst (Shape.fresh true)) = true ->
                1 * (64 / total_stride cfg_default)
                  * (64 / total_stride cfg_default) <> 1)
    by (intros _; vm_compute; discriminate).
  split; [exact cfg_default_valid|]. split; [reflexivity|].
  split; [exact D|].
  exact (@decode_encode_shape cfg_default (built cfg_default)
           1 64 64 true true (Shape.fresh true)
           cfg_default_valid eq_refl
           ltac:(lia) ltac:(lia) ltac:(lia) D D Hbn).
Defined.

Lemma encode_as_described_witness :
  init cfg_default = Some (built cfg_default)
  /\ (encode (S:=Shape.scaling) (built cfg_default) (sh 1 3 64 64) true
             (Shape.fresh false)
      = encode_described (S:=Shape.scaling) (built cfg_default) (sh 1 3 64 64) true
                         (Shape.fresh false)
      /\ exists cs,
           calls (snd (encode (S:=Shape.scaling) (built cfg_default)
                              (sh 1 3 64 64) true (Shape.fresh false)))
           = calls (Shape.fresh false) ++ cs
           /\ ~ In VQuantizer cs).
Proof.
  split; [reflexivity|].
  exact (@encode_as_described Shape.scaling Shape.backend
           cfg_default (built cfg_default) (sh 1 3 64 64) true
           (Shape.fresh false) eq_refl).
Defined.

(** ** The state of the instance across calls *)

(** C9, as stated, fails.  A freshly built instance is in training mode;
    there [encode] runs the [BatchNorm2d] at [down_blocks.3.1], which
    counts the batch in its buffer [num_batches_tracked]. *)
Lemma encode_updates_batch_norm_buffers :
  init cfg_default = Some (built cfg_default)
  /\ (let w0 := Shape.fresh true in
      let w1 := snd (encode (S:=Shape.scaling) (built cfg_default)
                            (sh 1 3 64 64) true w0) in
      num_batches_tracked (buffers (inst w0) (DownBlocks, [3; 1]%nat)) = 0
      /\ num_batches_tracked (buffers (inst w1) (DownBlocks, [3; 1]%nat)) = 1
      /\ inst w1 <> inst w0).
Proof.
  split; [reflexivity|]. cbv zeta.
  split; [reflexivity|]. split; [reflexivity|].
  intros H.
  apply (f_equal (fun s => num_batches_tracked
                             (buffers s (DownBlocks, [3; 1]%nat)))) in H.
  vm_compute in H. discriminate.
Qed.

Lemma calls_deterministic_witness :
  let self := built cfg_default in
  let x := sh 1 3 64 64 in
  let w := Shape.fresh true in
  let w' := snd (forward (S:=Shape.scaling) self x true w) in
  init cfg_default = Some self
  /\ same_instance (inst w) (inst w')
  /\ fst (encode (S:=Shape.scaling) self x true w')
     = fst (encode (S:=Shape.scaling) self x true w)
  /\ fst (forward (S:=Shape.scaling) self x true w')
     = fst (forward (S:=Shape.scaling) self x true w)
  /\ inst (snd (decode (S:=Shape.scaling) self (sh 1 4 16 16) true true w))
     = inst w
  /\ num_batches_tracked (buffers (inst w') (batch_norm_name cfg_default))
     = num_batches_tracked (buffers (inst w) (batch_norm_name cfg_default)) + 1.
Proof.
  cbv zeta.
  assert (Hs : same_instance
                 (inst (Shape.fresh true))
                 (inst (snd (forward (S:=Shape.scaling) (built cfg_default)
                                     (sh 1 3 64 64) true (Shape.fresh true))))).
  { split; [reflexivity|]. split; [reflexivity|]. simpl. discriminate. }
  destruct (@calls_deterministic Shape.scaling Shape.backend
              cfg_default (built cfg_default) (sh 1 3 64 64) (sh 1 4 16 16)
              true true (Shape.fresh true) _ eq_refl Hs)
    as ((He & _ & Hf) & _ & Hd & Hb).
  split; [reflexivity|]. split; [exact Hs|].
  split; [exact He|]. split; [exact Hf|]. split; [exact Hd|].
  apply (proj2 (Hb eq_refl)). vm_compute. discriminate.
Defined.

(** ** The two scalings *)

Lemma Qc_div_mul (v s : Qc) : s <> 0%Qc -> (v / s * s)%Qc = v.
Proof. intros Hs. rewrite Qcmult_comm. now apply Qcmult_div_r. Qed.

(** C8: over rational tensors, for every tensor [h] and every nonzero
    scale factor, the scaling of [decode] undoes the scaling of [encode]:
    [(h / s) * s = h], entry by entry. *)
Theorem scaling_round_trip
        (self : VQModelPaella (@scalar Rational.scaling))
        (h : Rational.qtensor) :
  scale_factor (config self) <> 0%Qc ->
  decode_scale (S:=Rational.scaling) self
               (encode_scale (S:=Rational.scaling) self h)
  = h.
Proof.
  intros Hs. unfold decode_scale, encode_scale. simpl.
  destruct h as [shp data]. unfold Rational.qmul, Rational.qdiv. simpl.
  f_equal. rewrite map_map.
  induction data as [|v data IH]; simpl; [reflexivity|].
  now rewrite IH, Qc_div_mul.
Qed.

Lemma scaling_round_trip_witness :
  let self := built cfg_rational in
  let h := {| Rational.qshape := sh 1 1 1 2;
              Rational.qdata := [Q2Qc 1; Q2Qc (1 # 2)] |} in
  scale_factor (config self) <> 0%Qc
  /\ decode_scale (S:=Rational.scaling) self
                  (encode_scale (S:=Rational.scaling) self h)
     = h.
Proof.
  cbv zeta.
  assert (Hs : scale_factor (config (built cfg_rational)) <> 0%Qc).
  { intros H. apply (f_equal (fun q => Qnum (this q))) in H.
    vm_compute in H. discriminate. }
  split; [exact Hs|].
  exact (@scaling_round_trip (built cfg_rational) _ Hs).
Defined.

(** ** The state dict of the conversion script *)

Section DictFacts.

Variable V : Type.

Local Abbreviation dict := (Script.dict V).

Lemma getitem_None (d : dict) k :
  Script.getitem d k = None <-> ~ In k (Script.keys d).
Proof.
  induction d as [|[k' v] d IH]; simpl; [tauto|].
  destruct (String.eqb_spec k' k) as [E|E].
  - split; [discriminate | intros H; elim H; now left].
  - rewrite IH. tauto.
Qed.

Lemma getitem_setitem_same (d : dict) k v :
  Script.getitem (Script.setitem d k v) k = Some v.
Proof.
  induction d as [|[k' v'] d IH]; simpl.
  - now rewrite String.eqb_refl.
  - destruct (String.eqb_spec k' k) as [E|E]; simpl.
    + subst. now rewrite String.eqb_refl.
    + destruct (String.eqb_spec k' k); [contradiction | exact IH].
Qed.

Lemma getitem_setitem_other (d : dict) k v k0 :
  k0 <> k ->
  Script.getitem (Script.setitem d k v) k0 = Script.getitem d k0.
Proof.
  intros Hk. induction d as [|[k' v'] d IH]; simpl.
  - destruct (String.eqb_spec k k0); [congruence | reflexivity].
  - destruct (String.eqb_spec k' k) as [E|E]; simpl.
    + subst. destruct (String.eqb_spec k k0); [congruence | reflexivity].
    + now rewrite IH.
Qed.

Lemma keys_setitem (d : dict) k v :
  Script.keys (Script.setitem d k v) =
  match Script.getitem d k with
  | Some _ => Script.keys d
  | None => Script.keys d ++ [k]
  end.
Proof.
  induction d as [|[k' v'] d IH]; simpl; [reflexivity|].
  destruct (String.eqb_spec k' k) as [E|E]; simpl; [reflexivity|].
  rewrite IH. now destruct (Script.getitem d k).
Qed.

Lemma NoDup_setitem (d : dict) k v :
  NoDup (Script.keys d) -> NoDup (Script.keys (Script.setitem d k v)).
Proof.
  intros H. rewrite keys_setitem.
  destruct (Script.getitem d k) eqn:E; [exact H|].
  apply getitem_None in E.
  apply NoDup_rev in H. rewrite <- (rev_involutive (_ ++ _)).
  apply NoDup_rev. rewrite rev_app_distr. simpl. constructor; [|exact H].
  now rewrite <- in_rev.
Qed.

Lemma pop_None (d : dict) k :
  Script.pop d k = None <-> Script.getitem d k = None.
Proof.
  induction d as [|[k' v] d IH]; simpl; [tauto|].
  destruct (String.eqb_spec k' k); [split; discriminate|].
  destruct (Script.pop d k) as [[r d'']|]; rewrite <- IH;
    split; congruence.
Qed.

Lemma pop_Some (d : dict) k v d' :
  Script.pop d k = Some (v, d') ->
  Script.getitem d k = Some v
  /\ (forall k0, k0 <> k -> Script.getitem d' k0 = Script.getitem d k0)
  /\ (forall k0, In k0 (Script.keys d') -> In k0 (Script.keys d))
  /\ (NoDup (Script.keys d) ->
      Script.getitem d' k = None /\ NoDup (Script.keys d'))
  /\ Datatypes.S (length d') = length d.
Proof.
  revert v d'. induction d as [|[k' v'] d IH]; simpl; intros v d' H;
    [discriminate|].
  destruct (String.eqb_spec k' k) as [E|E].
  - injection H as <- <-. subst k'. split; [reflexivity|].
    split.
    { intros k0 Hk. destruct (String.eqb_spec k k0); congruence. }
    split; [intros k0 Hk; now right|].
    split; [|reflexivity].
    intros Hn. inversion Hn; subst. split; [now apply getitem_None | assumption].
  - destruct (Script.pop d k) as [[r d'']|] eqn:Ep; [|discriminate].
    injection H as <- <-.
    destruct (IH r d'' eq_refl) as (Hg & Ho & Hin & Hnd & Hlen).
    split; [exact Hg|]. split.
    { intros k0 Hk. simpl. now rewrite Ho. }
    split.
    { simpl. intros k0 [Hk|Hk]; [now left | right; now apply Hin]. }
    split; [|simpl; now rewrite Hlen].
    intros Hn. inversion Hn as [|? ? Hnotin Hn']; subst.
    destruct (Hnd Hn') as [Hg' Hn''].
    simpl. destruct (String.eqb_spec k' k); [contradiction|].
    split; [exact Hg'|]. constructor; [|exact Hn''].
    intros Hin'. apply Hnotin. now apply Hin.
Qed.

(** X1: the renaming of the conversion script raises [KeyError] exactly
    when the checkpoint has no ["vquantizer.codebook.weight"]. *)
Theorem rename_codebook_KeyError (sd : dict) :
  Script.rename_codebook sd = None
  <-> Script.getitem sd Script.legacy_key = None.
Proof.
  unfold Script.rename_codebook. split.
  - destruct (Script.getitem sd Script.legacy_key) as [v|] eqn:E;
      [|reflexivity].
    destruct (Script.pop (Script.setitem sd Script.target_key v)
                         Script.legacy_key) as [[r d']|] eqn:Ep;
      [discriminate|].
    apply pop_None in Ep.
    rewrite getitem_setitem_other in Ep by (vm_compute; discriminate).
    congruence.
  - intros ->. reflexivity.
Qed.

(** X2: on a checkpoint with unique keys, the renaming returns a dict with
    unique keys in which ["vquantizer.embedding.weight"] holds what
    ["vquantizer.codebook.weight"] held, the legacy key is gone and every
    other key holds what it held; the dict has as many entries as before,
    or one fewer when the target key was already there. *)
Theorem rename_codebook_effect (sd sd' : dict) :
  NoDup (Script.keys sd) ->
  Script.rename_codebook sd = Some sd' ->
  Script.getitem sd' Script.target_key = Script.getitem sd Script.legacy_key
  /\ Script.getitem sd' Script.legacy_key = None
  /\ (forall k, k <> Script.legacy_key -> k <> Script.target_key ->
        Script.getitem sd' k = Script.getitem sd k)
  /\ NoDup (Script.keys sd')
  /\ length sd' =
     match Script.getitem sd Script.target_key with
     | Some _ => Nat.pred (length sd)
     | None => length sd
     end.
Proof.
  intros Hn. unfold Script.rename_codebook.
  destruct (Script.getitem sd Script.legacy_key) as [v|] eqn:E;
    [|discriminate].
  destruct (Script.pop (Script.setitem sd Script.target_key v)
                       Script.legacy_key) as [[r d']|] eqn:Ep;
    [|discriminate].
  intros H. injection H as <-.
  destruct (pop_Some _ _ Ep) as (_ & Ho & _ & Hnd & Hlen).
  destruct (Hnd (NoDup_setitem _ _ _ Hn)) as [Hg' Hn'].
  split.
  { rewrite Ho by (vm_compute; discriminate). apply getitem_setitem_same. }
  split; [exact Hg'|]. split.
  { intros k Hk1 Hk2. rewrite Ho by assumption.
    now apply getitem_setitem_other. }
  split; [exact Hn'|].
  assert (Hl : length (Script.setitem sd Script.target_key v)
               = length (Script.keys (Script.setitem sd Script.target_key v)))
    by (unfold Script.keys; now rewrite length_map).
  rewrite keys_setitem in Hl.
  destruct (Script.getitem sd Script.target_key).
  - unfold Script.keys in Hl. rewrite length_map in Hl. simpl in *. lia.
  - unfold Script.keys in Hl. rewrite length_app, length_map in Hl.
    simpl in *. lia.
Qed.

End DictFacts.

Lemma rename_codebook_effect_witness :
  NoDup (Script.keys Script.legacy_checkpoint)
  /\ (exists sd',
        Script.rename_codebook Script.legacy_checkpoint = Some sd'
        /\ Script.getitem sd' Script.target_key = Some 2
        /\ Script.getitem sd' Script.legacy_key = None
        /\ length sd' = 3%nat).
Proof.
  assert (Hn : NoDup (Script.keys Script.legacy_checkpoint)).
  { repeat constructor; simpl; intuition discriminate. }
  split; [exact Hn|].
  eexists. split; [reflexivity|].
  destruct (@rename_codebook_effect Z Script.legacy_checkpoint _ Hn eq_refl)
    as (Ht & Hl & _ & _ & Hlen).
  split; [exact Ht|]. split; [exact Hl | exact Hlen].
Defined.

(** ** More on the constructor *)

Section ConstructorFacts.

Variable float : Type.
Variable cfg : Config float.

Lemma down_layers_count (k : nat) :
  length (flat_map (down_layers cfg) (Py.range (Z.of_nat k + 1)))
  = (2 * k + 1)%nat.
Proof.
  induction k as [|k IH]; [reflexivity|].
  replace (Z.of_nat (Datatypes.S k)) with (Z.of_nat k + 1) by lia.
  rewrite range_succ by lia. rewrite flat_map_app, length_app, IH.
  simpl flat_map. unfold down_layers.
  destruct (Z.ltb_spec 0 (Z.of_nat k + 1)); [|lia]. simpl length. lia.
Qed.

Lemma up_layers_count (k : nat) :
  Z.of_nat k + 1 <= levels cfg ->
  length (flat_map (up_layers cfg) (Py.range (Z.of_nat k + 1)))
  = (Z.to_nat (bottleneck_blocks cfg) + k
     + (if (Z.of_nat k <? levels cfg - 1)%Z then k + 1 else k))%nat.
Proof.
  induction k as [|k IH]; intros Hk.
  - simpl. rewrite app_nil_r. unfold up_layers. cbv zeta.
    rewrite length_app, repeat_length. simpl (0 =? 0).
    destruct (0 <? levels cfg - 1); simpl; lia.
  - replace (Z.of_nat (Datatypes.S k)) with (Z.of_nat k + 1) in * by lia.
    rewrite range_succ by lia. rewrite flat_map_app, length_app, IH by lia.
    destruct (Z.ltb_spec (Z.of_nat k) (levels cfg - 1)); [|lia].
    simpl flat_map. rewrite app_nil_r. unfold up_layers. cbv zeta.
    rewrite length_app, repeat_length.
    destruct (Z.eqb_spec (Z.of_nat k + 1) 0); [lia|].
    destruct (Z.of_nat k + 1 <? levels cfg - 1); simpl; lia.
Qed.

(** Dividing by one more power of two halves, up to the bit dropped. *)
Lemma div_pow2_step (c j : Z) :
  0 <= j ->
  c / 2 ^ j = 2 * (c / 2 ^ (j + 1)) + (c / 2 ^ j) mod 2.
Proof.
  intros Hj. rewrite Z.pow_add_r, Z.pow_1_r by lia.
  rewrite <- Z.div_div by (try apply pow2_pos; lia).
  apply Z.div_mod. lia.
Qed.

Lemma div_pow2_exact (c j n : Z) :
  0 <= j -> j + 1 <= n -> (2 ^ n | c) ->
  c / 2 ^ j = 2 * (c / 2 ^ (j + 1)).
Proof.
  intros Hj Hn [q Hq]. subst c.
  replace n with ((n - (j + 1)) + (j + 1)) by lia.
  rewrite Z.pow_add_r by lia.
  rewrite Z.mul_assoc, Z.div_mul by (apply Z.pow_nonzero; lia).
  rewrite Z.pow_add_r, Z.pow_1_r by lia.
  replace (q * 2 ^ (n - (j + 1)) * (2 ^ j * 2))
    with (q * 2 ^ (n - (j + 1)) * 2 * 2 ^ j) by ring.
  rewrite Z.div_mul by (apply Z.pow_nonzero; lia). ring.
Qed.

End ConstructorFacts.

(** X3: the constructor raises when [levels] is not positive
    ([IndexError] on the empty schedule), when [c_hidden] is less than
    [2^(levels-1)] (a level would be left without a channel), when the
    codebook is empty or when a channel count is negative; on a
    configuration with positive sizes it returns an instance. *)
Theorem init_raises (float : Type) (cfg : Config float) :
  (levels cfg <= 0
   \/ c_hidden cfg < 2 ^ (levels cfg - 1)
   \/ codebook_size cfg <= 0
   \/ c_latent cfg < 0
   \/ in_channels cfg * up_down_scale_factor cfg ^ 2 < 0
   \/ out_channels cfg * up_down_scale_factor cfg ^ 2 < 0 ->
   init cfg = None)
  /\ (valid_config cfg -> exists m, init cfg = Some m /\ config m = cfg).
Proof.
  split.
  - intros Hbad. destruct (init cfg) as [m|] eqn:E; [|reflexivity].
    apply init_constructible, constructible_iff in E. lia.
  - intros V. exists (built cfg).
    split; [now apply init_built, valid_constructible | reflexivity].
Qed.

(** X4: an instance the constructor returns has [2*levels] entries in
    [down_blocks], the last one the [Sequential] of the bias-free latent
    projection and the [BatchNorm2d], and
    [2*levels - 1 + max(bottleneck_blocks, 0)] entries in [up_blocks], the
    first one the [Sequential] of the projection back from the latent. *)
Theorem block_counts (float : Type) (cfg : Config float)
        (self : VQModelPaella float) :
  init cfg = Some self ->
  exists ds us,
    down_blocks self = Sequential ds
    /\ Z.of_nat (length ds) = 2 * levels cfg
    /\ nth_error ds (Z.to_nat (2 * levels cfg - 1))
       = Some (Sequential
                 [Prim (Conv2d (c_hidden cfg) (c_latent cfg) 1 1 0 false);
                  BatchNorm2d (c_latent cfg)])
    /\ up_blocks self = Sequential us
    /\ Z.of_nat (length us)
       = 2 * levels cfg - 1 + Z.max (bottleneck_blocks cfg) 0
    /\ nth_error us 0
       = Some (Sequential
                 [Prim (Conv2d (c_latent cfg) (c_hidden cfg) 1 1 0 true)]).
Proof.
  intros Hi. apply init_inv in Hi. destruct Hi as [HL ->].
  set (k := Z.to_nat (levels cfg - 1)).
  assert (Ek : levels cfg = Z.of_nat k + 1) by (unfold k; lia).
  eexists. eexists. split; [reflexivity|].
  assert (Hd : length (flat_map (down_layers cfg) (Py.range (levels cfg)))
               = (2 * k + 1)%nat)
    by (rewrite Ek at 1; apply down_layers_count).
  clearbody k.
  split; [rewrite length_app, Hd; cbn [length]; lia|].
  split.
  { rewrite nth_error_app2 by lia.
    replace (Z.to_nat (2 * levels cfg - 1)
             - length (flat_map (down_layers cfg) (Py.range (levels cfg))))%nat
      with 0%nat by lia.
    reflexivity. }
  split; [reflexivity|].
  split; [|reflexivity].
  cbn [app length]. rewrite Ek at 1. rewrite up_layers_count by lia.
  destruct (Z.ltb_spec (Z.of_nat k) (levels cfg - 1)); lia.
Qed.

Lemma block_counts_witness :
  init cfg_default = Some (built cfg_default)
  /\ exists ds us,
       down_blocks (built cfg_default) = Sequential ds
       /\ Z.of_nat (length ds) = 4
       /\ up_blocks (built cfg_default) = Sequential us
       /\ Z.of_nat (length us) = 15.
Proof.
  split; [reflexivity|].
  destruct (@block_counts Q cfg_default (built cfg_default) eq_refl)
    as (ds & us & Hd & Hld & _ & Hu & Hlu & _).
  exists ds, us. split; [exact Hd|]. split; [exact Hld|].
  split; [exact Hu | exact Hlu].
Defined.

(** X5: each width of the schedule is twice the previous one, or twice
    plus one where floor division dropped a bit; it is exactly twice
    throughout when [c_hidden] is a multiple of [2^(levels-1)]. *)
Theorem schedule_doubles (float : Type) (cfg : Config float) (i a b : Z) :
  0 <= i < levels cfg - 1 ->
  Py.index (c_levels cfg) i = Some a ->
  Py.index (c_levels cfg) (i + 1) = Some b ->
  (b = 2 * a \/ b = 2 * a + 1)
  /\ ((2 ^ (levels cfg - 1) | c_hidden cfg) -> b = 2 * a).
Proof.
  intros Hi Ha Hb.
  rewrite c_levels_index in Ha by lia. rewrite c_levels_index in Hb by lia.
  injection Ha as <-. injection Hb as <-. unfold c_at.
  set (j := levels cfg - 1 - (i + 1)).
  replace (levels cfg - 1 - i) with (j + 1) by (unfold j; lia).
  assert (Hj : 0 <= j) by (unfold j; lia).
  split.
  - rewrite (div_pow2_step (c_hidden cfg) Hj).
    pose proof (Z.mod_pos_bound (c_hidden cfg / 2 ^ j) 2 ltac:(lia)). lia.
  - intros Hd. apply (@div_pow2_exact (c_hidden cfg) j (levels cfg - 1));
      [exact Hj | unfold j; lia | exact Hd].
Qed.

Lemma schedule_doubles_witness :
  0 <= 0 < levels cfg_hidden5 - 1
  /\ Py.index (c_levels cfg_hidden5) 0 = Some 2
  /\ Py.index (c_levels cfg_hidden5) 1 = Some 5
  /\ (5 = 2 * 2 \/ 5 = 2 * 2 + 1).
Proof.
  assert (H0 : 0 <= 0 < levels cfg_hidden5 - 1) by (simpl; lia).
  split; [exact H0|]. split; [reflexivity|]. split; [reflexivity|].
  exact (proj1 (@schedule_doubles Q cfg_hidden5 0 2 5 H0 eq_refl eq_refl)).
Defined.

(** ** Shapes the encoder accepts *)

(** A 4x4 convolution of stride 2 and padding 1 halves, rounding down. *)
Lemma conv_stride2_floor (a : Z) : Shape.conv_out a 4 2 1 = a / 2.
Proof.
  unfold Shape.conv_out.
  replace (a + 2 * 1 - 4) with (a + (-1) * 2) by ring.
  rewrite Z.div_add by lia. lia.
Qed.

Lemma pow2_succ_le_div (h k : Z) :
  0 <= k -> (2 ^ (k + 1) <= h <-> 2 <= h / 2 ^ k).
Proof.
  intros Hk. pose proof (pow2_pos Hk) as Hp.
  rewrite Z.pow_add_r, Z.pow_1_r by lia. split; intros H.
  - apply Z.div_le_lower_bound; lia.
  - destruct (Z_lt_le_dec h (2 ^ k * 2)) as [Hlt|]; [|assumption].
    apply Z.div_lt_upper_bound in Hlt; lia.
Qed.

Section EncoderShapes.

Variable float : Type.
Variable cfg : Config float.
Variable tr : bool.
Variable n : Z.

(** After the first [k+1] levels of the encoder, for any sizes: each
    stride-2 convolution needs a size of at least 2 and halves it, rounding
    down. *)
Lemma down_levels_floor (k : nat) (h w : Z) :
  Z.of_nat k < levels cfg ->
  1 <= h -> 1 <= w ->
  layers_shape tr (flat_map (down_layers cfg) (Py.range (Z.of_nat k + 1)))
               (sh n (c_at cfg 0) h w)
  = if (2 ^ Z.of_nat k <=? h) && (2 ^ Z.of_nat k <=? w)
    then Some (sh n (c_at cfg (Z.of_nat k))
                  (h / 2 ^ Z.of_nat k) (w / 2 ^ Z.of_nat k))
    else None.
Proof.
  intros Hk Hh Hw. induction k as [|k IH].
  - simpl. unfold Shape.mixing_residual_block_shape. simpl.
    rewrite Z.eqb_refl. simpl.
    destruct (Z.leb_spec 1 h); [|lia]. destruct (Z.leb_spec 1 w); [|lia].
    simpl. now rewrite !Z.div_1_r.
  - replace (Z.of_nat (Datatypes.S k)) with (Z.of_nat k + 1) in * by lia.
    rewrite range_succ by lia.
    rewrite flat_map_app, layers_shape_app, IH by lia. clear IH.
    pose proof (@pow2_pos (Z.of_nat k) ltac:(lia)) as Hp.
    pose proof (@pow2_succ_le_div h (Z.of_nat k) ltac:(lia)) as Lh.
    pose proof (@pow2_succ_le_div w (Z.of_nat k) ltac:(lia)) as Lw.
    assert (Ep : 2 ^ (Z.of_nat k + 1) = 2 ^ Z.of_nat k * 2)
      by (rewrite Z.pow_add_r, Z.pow_1_r by lia; reflexivity).
    destruct (Z.leb_spec (2 ^ Z.of_nat k) h) as [Gh|Gh];
      destruct (Z.leb_spec (2 ^ Z.of_nat k) w) as [Gw|Gw];
      cbn [andb obind];
      try (destruct (Z.leb_spec (2 ^ (Z.of_nat k + 1)) h);
           destruct (Z.leb_spec (2 ^ (Z.of_nat k + 1)) w);
           cbn [andb]; solve [reflexivity | lia]).
    simpl flat_map. unfold down_layers.
    destruct (Z.ltb_spec 0 (Z.of_nat k + 1)) as [_|]; [|lia].
    replace (Z.of_nat k + 1 - 1) with (Z.of_nat k) by lia.
    cbn [app layers_shape layer_shape Shape.prim_shape sh
         channels height width batch].
    rewrite Z.eqb_refl. cbn [andb Z.ltb Z.compare].
    destruct (Z.leb_spec 4 (h / 2 ^ Z.of_nat k + 2 * 1)) as [Ch|Ch];
      destruct (Z.leb_spec 4 (w / 2 ^ Z.of_nat k + 2 * 1)) as [Cw|Cw];
      destruct (Z.leb_spec (2 ^ (Z.of_nat k + 1)) h) as [Ph|Ph];
      destruct (Z.leb_spec (2 ^ (Z.of_nat k + 1)) w) as [Pw|Pw];
      cbn [andb obind]; try reflexivity;
      try (exfalso; lia).
    cbn [layers_shape layer_shape Shape.prim_shape].
    unfold Shape.mixing_residual_block_shape. cbn [channels].
    rewrite Z.eqb_refl. cbn [obind].
    rewrite !conv_stride2_floor, !Z.div_div, Ep by lia. reflexivity.
Qed.

(** The input stage: the channel count must be [in_channels] and the
    sizes positive multiples of the scale factor. *)
Lemma in_block_shape (c h w : Z) :
  0 < up_down_scale_factor cfg ->
  layer_shape tr (in_block (built cfg)) (sh n c h w)
  = if (c =? in_channels cfg)
       && (h mod up_down_scale_factor cfg =? 0)
       && (w mod up_down_scale_factor cfg =? 0)
       && (1 <=? h / up_down_scale_factor cfg)
       && (1 <=? w / up_down_scale_factor cfg)
    then Some (sh n (c_at cfg 0) (h / up_down_scale_factor cfg)
                  (w / up_down_scale_factor cfg))
    else None.
Proof.
  intros Hs. set (r := up_down_scale_factor cfg) in *.
  unfold built, in_block. fold r.
  rewrite layer_shape_Sequential.
  cbn [layers_shape layer_shape Shape.prim_shape sh
       channels height width batch].
  destruct (Z.ltb_spec 0 r) as [_|]; [|lia]. cbn [andb].
  destruct (Z.eqb_spec (h mod r) 0) as [Mh|Mh];
    destruct (Z.eqb_spec (w mod r) 0) as [Mw|Mw];
    cbn [andb obind channels height width batch];
    rewrite ?andb_false_r; try reflexivity.
  rewrite Z.pow_2_r.
  destruct (Z.eqb_spec (c * (r * r)) (in_channels cfg * (r * r))) as [Ec|Ec];
    destruct (Z.eqb_spec c (in_channels cfg)) as [Ec'|Ec'];
    try (exfalso; nia); cbn [andb]; [|reflexivity].
  cbn [Z.ltb Z.compare].
  replace (h / r + 2 * 0) with (h / r) by lia.
  replace (w / r + 2 * 0) with (w / r) by lia.
  destruct (1 <=? h / r); destruct (1 <=? w / r); cbn [andb obind];
    try reflexivity.
  now rewrite !conv_1x1_keeps.
Qed.

(** The downsampling cascade, for any sizes. *)
Lemma down_blocks_shape (h w : Z) :
  0 < levels cfg -> 1 <= h -> 1 <= w ->
  layer_shape tr (down_blocks (built cfg)) (sh n (c_at cfg 0) h w)
  = if (2 ^ (levels cfg - 1) <=? h) && (2 ^ (levels cfg - 1) <=? w)
       && (negb tr
           || negb (n * (h / 2 ^ (levels cfg - 1))
                      * (w / 2 ^ (levels cfg - 1)) =? 1))
    then Some (sh n (c_latent cfg) (h / 2 ^ (levels cfg - 1))
                  (w / 2 ^ (levels cfg - 1)))
    else None.
Proof.
  intros HL Hh Hw.
  set (k := Z.to_nat (levels cfg - 1)).
  assert (Ek : Z.of_nat k = levels cfg - 1) by (unfold k; lia).
  clearbody k.
  pose proof (@pow2_pos (levels cfg - 1) ltac:(lia)) as Hp.
  unfold built, down_blocks.
  rewrite layer_shape_Sequential, layers_shape_app.
  replace (Py.range (levels cfg)) with (Py.range (Z.of_nat k + 1))
    by (f_equal; lia).
  rewrite (@down_levels_floor k h w ltac:(lia) Hh Hw), Ek.
  destruct (Z.leb_spec (2 ^ (levels cfg - 1)) h) as [Gh|Gh];
    destruct (Z.leb_spec (2 ^ (levels cfg - 1)) w) as [Gw|Gw];
    cbn [andb obind]; try reflexivity.
  assert (Dh : 1 <= h / 2 ^ (levels cfg - 1))
    by (apply Z.div_le_lower_bound; lia).
  assert (Dw : 1 <= w / 2 ^ (levels cfg - 1))
    by (apply Z.div_le_lower_bound; lia).
  rewrite c_at_last.
  cbn [layers_shape]. rewrite layer_shape_Sequential.
  cbn [layers_shape layer_shape Shape.prim_shape sh
       channels height width batch].
  rewrite Z.eqb_refl. cbn [andb Z.ltb Z.compare].
  destruct (Z.leb_spec 1 (h / 2 ^ (levels cfg - 1) + 2 * 0)); [|lia].
  destruct (Z.leb_spec 1 (w / 2 ^ (levels cfg - 1) + 2 * 0)); [|lia].
  cbn [andb obind]. rewrite !conv_1x1_keeps.
  unfold Shape.bn_train_shape, Shape.bn_eval_shape.
  cbn [channels height width batch]. rewrite Z.eqb_refl.
  destruct tr; cbn [andb negb orb]; [|reflexivity].
  destruct (n * (h / 2 ^ (levels cfg - 1)) * (w / 2 ^ (levels cfg - 1)) =? 1);
    reflexivity.
Qed.

(** The encoder, for any image. *)
Lemma encoder_shape_floor (c h w : Z) :
  0 < levels cfg -> 0 < up_down_scale_factor cfg ->
  obind (layer_shape tr (in_block (built cfg)) (sh n c h w))
        (layer_shape tr (down_blocks (built cfg)))
  = if (c =? in_channels cfg)
       && (h mod up_down_scale_factor cfg =? 0)
       && (w mod up_down_scale_factor cfg =? 0)
       && (2 ^ (levels cfg - 1) <=? h / up_down_scale_factor cfg)
       && (2 ^ (levels cfg - 1) <=? w / up_down_scale_factor cfg)
       && (negb tr
           || negb (n * (h / total_stride cfg) * (w / total_stride cfg) =? 1))
    then Some (sh n (c_latent cfg)
                  (h / total_stride cfg) (w / total_stride cfg))
    else None.
Proof.
  intros HL Hs. rewrite in_block_shape by assumption.
  set (r := up_down_scale_factor cfg) in *.
  pose proof (@pow2_pos (levels cfg - 1) ltac:(lia)) as Hp.
  assert (Et : forall v, v / total_stride cfg = v / r / 2 ^ (levels cfg - 1))
    by (intros v; unfold total_stride; fold r; now rewrite Z.div_div by lia).
  rewrite !Et.
  destruct (c =? in_channels cfg); cbn [andb]; [|reflexivity].
  destruct (h mod r =? 0); cbn [andb]; [|reflexivity].
  destruct (w mod r =? 0); cbn [andb]; [|reflexivity].
  destruct (Z.leb_spec 1 (h / r)) as [Gh|Gh];
    destruct (Z.leb_spec 1 (w / r)) as [Gw|Gw]; cbn [andb obind].
  - rewrite down_blocks_shape by assumption. reflexivity.
  - destruct (Z.leb_spec (2 ^ (levels cfg - 1)) (w / r)); [lia|].
    now rewrite andb_false_r.
  - destruct (Z.leb_spec (2 ^ (levels cfg - 1)) (h / r)); [lia|reflexivity].
  - destruct (Z.leb_spec (2 ^ (levels cfg - 1)) (h / r)); [lia|reflexivity].
Qed.

(** The decode cascade raises on a latent of another width. *)
Lemma up_blocks_wrong_width (c h w : Z) :
  c <> c_latent cfg ->
  layer_shape tr (up_blocks (built cfg)) (sh n c h w) = None.
Proof.
  intros Hc. unfold built, up_blocks.
  rewrite layer_shape_Sequential. cbn [app layers_shape].
  rewrite layer_shape_Sequential.
  cbn [layers_shape layer_shape Shape.prim_shape sh channels].
  destruct (Z.eqb_spec c (c_latent cfg)); [contradiction|reflexivity].
Qed.

End EncoderShapes.

(** X6: on an instance built from a valid configuration, [encode] of a
    non-empty image [(N, C, H, W)] returns exactly when [C] is
    [in_channels], [H] and [W] are multiples of the scale factor with
    quotients of at least [2^(levels-1)] and, in training mode, the latent
    has more than one value per channel; the latent then has the sizes
    divided by [scale * 2^(levels-1)], rounded down.  Otherwise it
    raises. *)
Theorem encode_returns_iff
        (cfg : Config (@scalar Shape.scaling))
        (self : VQModelPaella (@scalar Shape.scaling))
        (n c h w : Z) (rd : bool) (st : @world Shape.scaling Shape.backend) :
  valid_config cfg ->
  init cfg = Some self ->
  0 < n -> 0 < h -> 0 < w ->
  option_map tensor_of
    (fst (encode (S:=Shape.scaling) self (sh n c h w) rd st))
  = if (c =? in_channels cfg)
       && (h mod up_down_scale_factor cfg =? 0)
       && (w mod up_down_scale_factor cfg =? 0)
       && (2 ^ (levels cfg - 1) <=? h / up_down_scale_factor cfg)
       && (2 ^ (levels cfg - 1) <=? w / up_down_scale_factor cfg)
       && (negb (training (inst st))
           || negb (n * (h / total_stride cfg) * (w / total_stride cfg) =? 1))
    then Some (sh n (c_latent cfg)
                  (h / total_stride cfg) (w / total_stride cfg))
    else None.
Proof.
  intros V Hi Hn Hh Hw.
  apply init_inv in Hi. destruct Hi as [HL ->].
  rewrite shape_encode.
  apply encoder_shape_floor; [exact HL | apply (valid_scale V)].
Qed.

Lemma encode_returns_iff_witness :
  valid_config cfg_default
  /\ init cfg_default = Some (built cfg_default)
  /\ option_map tensor_of
       (fst (encode (S:=Shape.scaling) (built cfg_default)
                    (sh 1 3 70 66) true (Shape.fresh true)))
     = Some (sh 1 4 17 16)
  /\ fst (encode (S:=Shape.scaling) (built cfg_default)
                 (sh 1 3 65 64) true (Shape.fresh true))
     = None.
Proof.
  split; [exact cfg_default_valid|]. split; [reflexivity|].
  split.
  - eapply eq_trans;
      [exact (@encode_returns_iff cfg_default (built cfg_default)
                1 3 70 66 true (Shape.fresh true)
                cfg_default_valid eq_refl
                ltac:(lia) ltac:(lia) ltac:(lia))
      | vm_compute; reflexivity].
  - assert (H : option_map tensor_of
                  (fst (encode (S:=Shape.scaling) (built cfg_default)
                               (sh 1 3 65 64) true (Shape.fresh true)))
                = None).
    { eapply eq_trans;
        [exact (@encode_returns_iff cfg_default (built cfg_default)
                  1 3 65 64 true (Shape.fresh true)
                  cfg_default_valid eq_refl
                  ltac:(lia) ltac:(lia) ltac:(lia))
        | vm_compute; reflexivity]. }
    destruct (fst (encode (S:=Shape.scaling) (built cfg_default)
                          (sh 1 3 65 64) true (Shape.fresh true)));
      [discriminate H | reflexivity].
Defined.

(** X7: on an instance built from a valid configuration, [decode] with
    quantization disabled accepts any non-empty latent [(N, C, h, w)] with
    [C = c_latent], whether or not [encode] produced it, and returns an
    image of shape [(N, out_channels, h * s, w * s)] for
    [s = scale * 2^(levels-1)]; on a latent of another width it raises. *)
Theorem decode_returns_iff
        (cfg : Config (@scalar Shape.scaling))
        (self : VQModelPaella (@scalar Shape.scaling))
        (n c h w : Z) (rd : bool) (st : @world Shape.scaling Shape.backend) :
  valid_config cfg ->
  init cfg = Some self ->
  0 < n -> 0 < h -> 0 < w ->
  option_map tensor_of
    (fst (decode (S:=Shape.scaling) self (sh n c h w) true rd st))
  = if c =? c_latent cfg
    then Some (sh n (out_channels cfg)
                  (h * total_stride cfg) (w * total_stride cfg))
    else None.
Proof.
  intros V Hi Hn Hh Hw.
  apply init_inv in Hi. destruct Hi as [HL ->].
  rewrite shape_decode.
  destruct (Z.eqb_spec c (c_latent cfg)) as [->|Hc].
  - apply decoder_shape; try assumption. apply (valid_scale V).
  - now rewrite up_blocks_wrong_width.
Qed.

Lemma decode_returns_iff_witness :
  valid_config cfg_default
  /\ init cfg_default = Some (built cfg_default)
  /\ option_map tensor_of
       (fst (decode (S:=Shape.scaling) (built cfg_default)
                    (sh 2 4 5 7) true true (Shape.fresh true)))
     = Some (sh 2 3 20 28).
Proof.
  split; [exact cfg_default_valid|]. split; [reflexivity|].
  eapply eq_trans;
    [exact (@decode_returns_iff cfg_default (built cfg_default)
              2 4 5 7 true (Shape.fresh true)
              cfg_default_valid eq_refl ltac:(lia) ltac:(lia) ltac:(lia))
    | vm_compute; reflexivity].
Defined.

(** X8: sizes that are multiples of the scale factor but not of
    [scale * 2^(levels-1)] are not rejected: whenever [encode] returns,
    [decode(encode(x))] returns an image whose sizes are those of [x]
    rounded down to a multiple of [scale * 2^(levels-1)]. *)
Theorem round_trip_crops
        (cfg : Config (@scalar Shape.scaling))
        (self : VQModelPaella (@scalar Shape.scaling))
        (n h w : Z) (rd_enc rd_dec : bool)
        (st : @world Shape.scaling Shape.backend) :
  valid_config cfg ->
  init cfg = Some self ->
  0 < n -> 0 < h -> 0 < w ->
  fst (encode (S:=Shape.scaling) self (sh n (in_channels cfg) h w) rd_enc st)
  <> None ->
  option_map tensor_of
    (fst (decode_encode (S:=Shape.scaling) self
            (sh n (in_channels cfg) h w) rd_enc rd_dec st))
  = Some (sh n (out_channels cfg)
             (h - h mod total_stride cfg) (w - w mod total_stride cfg)).
Proof.
  intros V Hi Hn Hh Hw Hret.
  apply init_inv in Hi. destruct Hi as [HL ->].
  pose proof (valid_scale V) as Hs.
  assert (Hp : 0 < 2 ^ (levels cfg - 1)) by (apply pow2_pos; lia).
  assert (Hts : 0 < total_stride cfg) by (unfold total_stride; nia).
  unfold decode_encode, bind.
  match goal with
  | |- context [@encode ?S ?B ?m ?x ?rd ?w0] =>
      pose proof (@shape_encode m x rd w0) as He;
      pose proof (@encode_preserved S B m x rd w0) as (Ht & _);
      destruct (@encode S B m x rd w0) as [[o|] st1]
  end; cbn [fst snd option_map] in He, Ht; [|now elim Hret].
  rewrite (encoder_shape_floor cfg (training (inst st)) n
             (in_channels cfg) h w HL Hs) in He.
  destruct ((in_channels cfg =? in_channels cfg)
            && (h mod up_down_scale_factor cfg =? 0)
            && (w mod up_down_scale_factor cfg =? 0)
            && (2 ^ (levels cfg - 1) <=? h / up_down_scale_factor cfg)
            && (2 ^ (levels cfg - 1) <=? w / up_down_scale_factor cfg)
            && (negb (training (inst st))
                || negb (n * (h / total_stride cfg)
                           * (w / total_stride cfg) =? 1))) eqn:Ok;
    [|discriminate He].
  injection He as He.
  repeat (apply andb_true_iff in Ok; destruct Ok as [Ok ?]).
  assert (Hq : forall v, 2 ^ (levels cfg - 1) <= v / up_down_scale_factor cfg ->
            0 < v / total_stride cfg
            /\ v - v mod total_stride cfg
               = v / total_stride cfg * total_stride cfg).
  { intros v Hv. split.
    - unfold total_stride. rewrite <- Z.div_div by lia.
      apply Z.div_str_pos. lia.
    - pose proof (Z.div_mod v (total_stride cfg) ltac:(lia)). lia. }
  destruct (Hq h ltac:(lia)) as [Ph Eh]. destruct (Hq w ltac:(lia)) as [Pw Ew].
  rewrite shape_decode, He, Ht, Eh, Ew.
  now apply decoder_shape.
Qed.

Lemma round_trip_crops_witness :
  valid_config cfg_default
  /\ init cfg_default = Some (built cfg_default)
  /\ option_map tensor_of
       (fst (decode_encode (S:=Shape.scaling) (built cfg_default)
               (sh 1 3 70 66) true true (Shape.fresh true)))
     = Some (sh 1 3 68 64).
Proof.
  split; [exact cfg_default_valid|]. split; [reflexivity|].
  assert (Hr : fst (encode (S:=Shape.scaling) (built cfg_default)
                           (sh 1 (in_channels cfg_default) 70 66) true
                           (Shape.fresh true)) <> None)
    by (vm_compute; discriminate).
  eapply eq_trans;
    [exact (@round_trip_crops cfg_default (built cfg_default)
              1 70 66 true true (Shape.fresh true)
              cfg_default_valid eq_refl ltac:(lia) ltac:(lia) ltac:(lia) Hr)
    | vm_compute; reflexivity].
Defined.



(** ** Buffers and calls *)

Lemma name_eqb_false (a b : name) : a <> b -> name_eqb a b = false.
Proof.
  intros H. unfold name_eqb. destruct a as [sa la], b as [sb lb]. simpl.
  destruct (list_eq_dec Nat.eq_dec la lb) as [El|El];
    [|now rewrite andb_false_r].
  subst. destruct sa, sb; try reflexivity; now elim H.
Qed.

Section Frame.

Context {S : Scaling} {B : Backend S}.

(** A run of [down_blocks] leaves the buffers under every other key. *)
Lemma down_blocks_frame (cfg : Config scalar) h s n' :
  0 < levels cfg ->
  n' <> batch_norm_name cfg ->
  buffers (snd (run_layer (DownBlocks, []) (down_blocks (built cfg)) h s)) n'
  = buffers s n'.
Proof.
  intros HL Hn.
  change (down_blocks (built cfg))
    with (Sequential
            (flat_map (down_layers cfg) (Py.range (levels cfg))
             ++ [Sequential
                   [Prim (Conv2d (c_hidden cfg) (c_latent cfg) 1 1 0 false);
                    BatchNorm2d (c_latent cfg)]])).
  rewrite run_layer_Sequential, run_children_app.
  pose proof (run_children_no_batch_norm _
                (down_layers_no_batch_norm cfg (Py.range (levels cfg)))
                (DownBlocks, []) 0%nat h s) as H1.
  destruct (run_children (DownBlocks, []) 0
              (flat_map (down_layers cfg) (Py.range (levels cfg))) h s)
    as [[y|] s1]; simpl in H1; subst s1; [|reflexivity].
  replace (levels cfg) with (Z.of_nat (Z.to_nat (levels cfg - 1)) + 1) at 1
    by lia.
  rewrite down_layers_length.
  replace (2 * (Z.of_nat (Z.to_nat (levels cfg - 1)) + 1) - 1)
    with (2 * levels cfg - 1) by lia.
  assert (Hne : name_eqb (DownBlocks, [Z.to_nat (2 * levels cfg - 1); 1%nat])
                         n' = false)
    by (apply name_eqb_false; intros E; apply Hn; now rewrite <- E).
  revert Hne. generalize (Z.to_nat (2 * levels cfg - 1)). intros k Hne.
  cbn [run_children run_layer Nat.add]. unfold child. cbn [fst snd app].
  destruct (prim_forward (parameters s) (DownBlocks, [k; 0%nat])
              (Conv2d (c_hidden cfg) (c_latent cfg) 1 1 0 false) y) as [z|];
    [|reflexivity].
  unfold run_batch_norm.
  destruct (bn_check_input_dim z); [|reflexivity].
  destruct (training s); [|destruct (batch_norm_eval _ _ _ _ _); reflexivity].
  destruct (batch_norm_train (parameters s) (DownBlocks, [k; 1%nat])
              (c_latent cfg) z) as [v|];
    cbn [fst snd set_buffers buffers]; now rewrite Hne.
Qed.

Lemma encode_frame (cfg : Config scalar) x rd w n' :
  0 < levels cfg ->
  n' <> batch_norm_name cfg ->
  buffers (inst (snd (encode (built cfg) x rd w))) n' = buffers (inst w) n'.
Proof.
  intros HL Hn. rewrite encode_unfold, input_stage_run.
  destruct (input_stage (built cfg) x (inst w)) as [h|]; [|reflexivity].
  pose proof (@down_blocks_frame cfg h (inst w) n' HL Hn) as Hd.
  destruct (run_layer (DownBlocks, []) (down_blocks (built cfg)) h (inst w))
    as [[h'|] s2]; exact Hd.
Qed.

(** X10: whatever the mode and whether the call returns or raises,
    [encode] and [forward] change no buffer other than those of the
    [BatchNorm2d] that closes [down_blocks]. *)
Theorem only_batch_norm_buffers_change
        (cfg : Config scalar) (self : VQModelPaella scalar)
        (x : tensor) (rd : bool) (w : world) (n' : name) :
  init cfg = Some self ->
  n' <> batch_norm_name cfg ->
  buffers (inst (snd (encode self x rd w))) n' = buffers (inst w) n'
  /\ buffers (inst (snd (forward self x rd w))) n' = buffers (inst w) n'.
Proof.
  intros Hi Hn. apply init_inv in Hi. destruct Hi as [HL ->].
  split; [now apply encode_frame|].
  rewrite forward_unfold.
  pose proof (@encode_frame cfg x true w n' HL Hn) as He.
  destruct (encode (built cfg) x true w) as [[o|] w1]; [|exact He].
  pose proof (decode_pure cfg (tensor_of o) true true w1) as Hd.
  destruct (decode (built cfg) (tensor_of o) true true w1) as [[o'|] w2];
    cbn [fst snd] in *; now rewrite Hd.
Qed.

(** X11: [forward] invokes the sub-modules in the order [in_block],
    [down_blocks], [up_blocks], [out_block], stopping at the first that
    raises; it never invokes the vector quantizer, and when it returns it
    has invoked all four. *)
Theorem forward_calls
        (self : VQModelPaella scalar) (x : tensor) (rd : bool) (w : world) :
  exists cs rest,
    calls (snd (forward self x rd w)) = calls w ++ cs
    /\ cs ++ rest = [InBlock; DownBlocks; UpBlocks; OutBlock]
    /\ ~ In VQuantizer cs
    /\ (fst (forward self x rd w) <> None -> rest = []).
Proof.
  rewrite forward_unfold, encode_unfold.
  destruct (run_layer (InBlock, []) (in_block self) x (inst w)) as [[h|] s1].
  2:{ exists [InBlock], [DownBlocks; UpBlocks; OutBlock].
      split; [reflexivity|]. split; [reflexivity|].
      split; [simpl; intuition discriminate | intros H; now elim H]. }
  destruct (run_layer (DownBlocks, []) (down_blocks self) h s1) as [[h'|] s2].
  2:{ exists [InBlock; DownBlocks], [UpBlocks; OutBlock].
      split; [reflexivity|]. split; [reflexivity|].
      split; [simpl; intuition discriminate | intros H; now elim H]. }
  cbn [tensor_of]. rewrite decode_unfold.
  unfold decode_described, decode_cascade, decode_cascade_calls.
  cbn [negb]. change (inst (logged [InBlock; DownBlocks] s2 w)) with s2.
  destruct (run_layer (UpBlocks, []) (up_blocks self)
              (mul (encode_scale self h') (scale_factor (config self))) s2)
    as [[y|] s3].
  2:{ exists [InBlock; DownBlocks; UpBlocks], [OutBlock].
      split; [unfold logged; cbn; now rewrite <- app_assoc|].
      split; [reflexivity|].
      split; [simpl; intuition discriminate | intros H; now elim H]. }
  exists [InBlock; DownBlocks; UpBlocks; OutBlock], [].
  split.
  { destruct (run_layer (OutBlock, []) (out_block self) y s3) as [[d|] s4];
      unfold logged; cbn; now rewrite <- app_assoc. }
  split; [reflexivity|].
  split; [simpl; intuition discriminate | reflexivity].
Qed.

End Frame.

Lemma only_batch_norm_buffers_change_witness :
  init cfg_default = Some (built cfg_default)
  /\ (DownBlocks, [3; 0]%nat) <> batch_norm_name cfg_default
  /\ buffers (inst (snd (forward (S:=Shape.scaling) (built cfg_default)
                                 (sh 1 3 64 64) true (Shape.fresh true))))
             (DownBlocks, [3; 0]%nat)
     = buffers (inst (Shape.fresh true)) (DownBlocks, [3; 0]%nat).
Proof.
  assert (Hn : (DownBlocks, [3; 0]%nat) <> batch_norm_name cfg_default)
    by (vm_compute; discriminate).
  split; [reflexivity|]. split; [exact Hn|].
  exact (proj2 (@only_batch_norm_buffers_change Shape.scaling Shape.backend
                  cfg_default (built cfg_default) (sh 1 3 64 64) true
                  (Shape.fresh true) _ eq_refl Hn)).
Defined.
